(** * The task manager of task_manager.py: a model of [Task] and
    [TaskManager] and the properties of its store

    The model follows src/python-task-manager/task_manager.py.

    - A [Task] is a record with the attributes [__init__] sets, at the types
      its annotations give them; the store is the record of [filename],
      [tasks] and [next_id].
    - The methods of [TaskManager] run in a state and exception monad over
      the manager object and the world outside it (the files, the standard
      output and the fate of the coming writes). A raised exception keeps
      the state reached so far, as in Python.
    - A file is held as what [open] and [json.load] make of it: a JSON
      value, the [JSONDecodeError] of a text that is no JSON document, or a
      path that cannot be opened or decoded. That [json.load] gives back the
      value [json.dump] wrote is the contract of Python's json module and is
      part of this representation. A write succeeds, fails at the open, or
      fails after the open has emptied the file.
    - [datetime.now().isoformat()] is an argument [now] of the two
      operations that read the clock.
    - [main] is followed from [manager = TaskManager()] on: what argparse
      hands over is the type [args]; the text of the completion rate (a
      float rounded to one decimal) and the help of the parser are
      parameters. *)

From Stdlib Require Import Ascii.
From stdpp Require Import gmap strings list sorting pretty.

#[local] Set Warnings "-register-all".
#[local] Open Scope Z_scope.

(** ** JSON values and Python exceptions *)

(** What [json.load] returns: [None], [bool], [int], [float] (kept as its
    literal), [str], [list] and [dict] with [str] keys. *)
Inductive json : Type :=
  | JNull
  | JBool (b : bool)
  | JInt (n : Z)
  | JFloat (literal : string)
  | JStr (s : string)
  | JArr (items : list json)
  | JObj (members : gmap string json).

(** The exceptions the program can meet. *)
Inductive exn : Type :=
  | JSONDecodeError (msg : string)
  | KeyError (key : string)
  | TypeError
  | OSError
  | UnicodeDecodeError.

(** [str(e)], as [print(f"... {e}")] shows it: a [KeyError] prints the repr
    of its key. The program prints only the two classes it catches; the
    other lines stand for messages it never shows. *)
Definition exn_str (e : exn) : string :=
  match e with
  | JSONDecodeError msg => msg
  | KeyError key => "'" +:+ key +:+ "'"
  | TypeError => "TypeError"
  | OSError => "OSError"
  | UnicodeDecodeError => "UnicodeDecodeError"
  end.

(** A Python expression either has a value or raises. *)
Inductive res (A : Type) : Type :=
  | Ok (a : A)
  | Raised (e : exn).
Arguments Ok {A} a.
Arguments Raised {A} e.

Definition res_bind {A B} (r : res A) (k : A → res B) : res B :=
  match r with
  | Ok a => k a
  | Raised e => Raised e
  end.

(** A list comprehension [[f(x) for x in l]]: left to right, the first
    exception ends it. *)
Fixpoint comprehension {A B} (f : A → res B) (l : list A) : res (list B) :=
  match l with
  | [] => Ok []
  | x :: l' => res_bind (f x) (λ y, res_bind (comprehension f l') (λ ys, Ok (y :: ys)))
  end.

(** [data[key]] with a [str] key: only a dict can be indexed by a string. *)
Definition subscript (data : json) (key : string) : res json :=
  match data with
  | JObj members =>
      match members !! key with
      | Some v => Ok v
      | None => Raised (KeyError key)
      end
  | _ => Raised TypeError
  end.

(** [for x in v]: a list gives its items, a dict its keys and a string its
    characters (both strings); nothing else can be iterated. *)
Definition iterate (v : json) : res (list json) :=
  match v with
  | JArr items => Ok items
  | JObj members => Ok (JStr <$> (map_to_list members).*1)
  | JStr s => Ok ((λ c, JStr (String c EmptyString)) <$> String.list_ascii_of_string s)
  | _ => Raised TypeError
  end.

(** [data.get(key)]: the value, or nothing when the key is absent. Both of
    its calls come after a subscript of [data] has succeeded, so [data] is a
    dict there. *)
Definition dict_get (data : json) (key : string) : option json :=
  match data with
  | JObj members => members !! key
  | _ => None
  end.

(** ** class Task *)

Module Task.

Record t : Type := mk {
  id : Z;
  title : string;
  description : string;
  status : string;
  created_at : string;
  completed_at : option string
}.

(** [Task.__init__(title, description, task_id)], the clock reading [now]. *)
Definition init (title description : string) (task_id : Z) (now : string) : t :=
  {| id := task_id; title := title; description := description;
     status := "pending"; created_at := now; completed_at := None |}.

(** [Task.complete()], the clock reading [now]. *)
Definition complete (now : string) (task : t) : t :=
  {| id := id task; title := title task; description := description task;
     status := "completed"; created_at := created_at task;
     completed_at := Some now |}.

(** [Task.to_dict()]. *)
Definition to_dict (task : t) : json :=
  JObj {[ "id" := JInt (id task);
          "title" := JStr (title task);
          "description" := JStr (description task);
          "status" := JStr (status task);
          "created_at" := JStr (created_at task);
          "completed_at" := match completed_at task with
                            | Some stamp => JStr stamp
                            | None => JNull
                            end ]}.

(** The six values [from_dict] reads, at the types of the attributes they
    become. [from_dict] itself stores whatever the file holds; a value of
    another type gives no [t], and the model does not follow the run any
    further (see [Untyped] below). *)
Definition typed (jid jtitle jdescription jstatus jcreated : json)
    (jcompleted : option json) : option t :=
  match jid, jtitle, jdescription, jstatus, jcreated with
  | JInt i, JStr ti, JStr de, JStr st, JStr cr =>
      match jcompleted with
      | None | Some JNull => Some (mk i ti de st cr None)
      | Some (JStr stamp) => Some (mk i ti de st cr (Some stamp))
      | Some _ => None
      end
  | _, _, _, _, _ => None
  end.

(** [Task.from_dict(data)]: the subscripts in the order Python evaluates
    them; the constructor's own status and timestamps are overwritten by
    the values read, so its clock reading is dead. *)
Definition from_dict (data : json) : res (option t) :=
  res_bind (subscript data "title") (λ jtitle,
  res_bind (subscript data "description") (λ jdescription,
  res_bind (subscript data "id") (λ jid,
  res_bind (subscript data "status") (λ jstatus,
  res_bind (subscript data "created_at") (λ jcreated,
  Ok (typed jid jtitle jdescription jstatus jcreated
            (dict_get data "completed_at"))))))).

(** [Task.__str__()]; [str(self.id)] is the decimal numeral. *)
Definition str (task : t) : string :=
  let status_symbol := if String.eqb (status task) "completed" then "✓" else "○" in
  "[" +:+ status_symbol +:+ "] " +:+ pretty (id task) +:+ ": " +:+ title task.

End Task.

(** ** The world outside the manager object *)

(** A path that exists, as [open(path, 'r')] and [json.load] see it: text
    that is a JSON document, text that is none, something that cannot be
    opened for reading (a directory, a file without the permission), or
    bytes that are no text in the encoding of [open]. *)
Inductive file_content : Type :=
  | Malformed (msg : string)   (* no JSON document: JSONDecodeError(msg) *)
  | Document (data : json)
  | Unreadable                 (* open raises OSError *)
  | Undecodable.               (* the read raises UnicodeDecodeError *)

(** The fate of one [with open(path, 'w') as f: json.dump(data, f)]. It is
    written; or [open] raises [OSError] and the file is as it was; or [open]
    has emptied the file and the writing raises [OSError] before the
    document is complete (a full disk): what is left, nothing or a beginning
    of the document, is no JSON, and [msg] is the error [json.load] has for
    it. *)
Inductive write_fate : Type :=
  | Written
  | OpenFails
  | DumpFails (msg : string).

Definition fails (fate : write_fate) : bool :=
  match fate with
  | Written => false
  | _ => true
  end.

(** The files after a write of [path] that failed. *)
Definition left_by (fate : write_fate) (path : string)
    (fs : gmap string file_content) : gmap string file_content :=
  match fate with
  | DumpFails msg => <[path := Malformed msg]> fs
  | _ => fs
  end.

(** [files]: the paths that exist. [stdout]: the lines printed, oldest
    first. [faults]: the fates of the coming writes, in order; past the end
    of the list every write succeeds. *)
Record World : Type := mkWorld {
  files : gmap string file_content;
  stdout : list string;
  faults : list write_fate
}.

(** ** class TaskManager *)

Module TaskManager.

Record t : Type := mk {
  filename : string;
  tasks : list Task.t;
  next_id : Z
}.

(** The state a method runs in: [self] and the world. *)
Record St : Type := mkSt {
  self : t;
  world : World
}.

(** How a call ends. [Untyped] is a run that has read from the file a
    value of another type than the attribute it is stored in has here (a
    task whose title is a number, a [next_id] that is a string): Python
    goes on with that value, the model stops there. Only [load_tasks] on a
    file no [save_tasks] wrote can end so. *)
Inductive outcome (A : Type) : Type :=
  | Return (a : A)
  | Raise (e : exn)
  | Untyped.
Arguments Return {A} a.
Arguments Raise {A} e.
Arguments Untyped {A}.

Definition M (A : Type) : Type := St → outcome A * St.

Definition ret {A} (a : A) : M A := λ st, (Return a, st).

Definition bind {A B} (m : M A) (k : A → M B) : M B :=
  λ st, match m st with
        | (Return a, st') => k a st'
        | (Raise e, st') => (Raise e, st')
        | (Untyped, st') => (Untyped, st')
        end.

#[export] Instance M_ret : MRet M := @ret.
#[export] Instance M_bind : MBind M := λ A B k m, bind m k.

Definition raise {A} (e : exn) : M A := λ st, (Raise e, st).
Definition untyped {A} : M A := λ st, (Untyped, st).

(** A pure expression evaluated inside a method. *)
Definition lift {A} (r : res A) : M A :=
  match r with
  | Ok a => ret a
  | Raised e => raise e
  end.

(** [try: body except <classes caught> as e: handler(e)]. The handler runs
    in the state the body had reached. *)
Definition try_except {A} (body : M A) (caught : exn → bool) (handler : exn → M A) : M A :=
  λ st, match body st with
        | (Raise e, st') => if caught e then handler e st' else (Raise e, st')
        | r => r
        end.

(** Reading and assigning the attributes of [self]. *)
Definition get_self : M t := λ st, (Return (self st), st).
Definition set_tasks (ts : list Task.t) : M unit :=
  λ st, (Return (), mkSt (mk (filename (self st)) ts (next_id (self st))) (world st)).
Definition set_next_id (n : Z) : M unit :=
  λ st, (Return (), mkSt (mk (filename (self st)) (tasks (self st)) n) (world st)).

(** [os.path.exists(path)]. *)
Definition path_exists (path : string) : M bool :=
  λ st, (Return (bool_decide (is_Some (files (world st) !! path))), st).

(** [with open(path, 'r') as f: json.load(f)]. *)
Definition json_load (path : string) : M json :=
  λ st, match files (world st) !! path with
        | Some (Document data) => (Return data, st)
        | Some (Malformed msg) => (Raise (JSONDecodeError msg), st)
        | Some Unreadable => (Raise OSError, st)
        | Some Undecodable => (Raise UnicodeDecodeError, st)
        | None => (Raise OSError, st)
        end.

(** [with open(path, 'w') as f: json.dump(data, f, indent=2)]. A failed
    open leaves the file as it was; a write that fails after the open
    leaves a file that is no JSON. *)
Definition json_dump (data : json) (path : string) : M unit :=
  λ st,
    let w := world st in
    match faults w with
    | [] | Written :: _ =>
        (Return (),
         mkSt (self st)
              (mkWorld (<[path := Document data]> (files w)) (stdout w) (tail (faults w))))
    | fate :: later =>
        (Raise OSError,
         mkSt (self st) (mkWorld (left_by fate path (files w)) (stdout w) later))
    end.

(** [print(line)]. *)
Definition print (line : string) : M unit :=
  λ st, let w := world st in
        (Return (), mkSt (self st) (mkWorld (files w) (stdout w ++ [line]) (faults w))).

(** The [except (json.JSONDecodeError, KeyError)] clause of [load_tasks]. *)
Definition load_caught (e : exn) : bool :=
  match e with
  | JSONDecodeError _ | KeyError _ => true
  | _ => false
  end.

(** [data.get("next_id", 1)], at the type of [next_id]. *)
Definition next_id_of (data : json) : option Z :=
  match dict_get data "next_id" with
  | None => Some 1
  | Some (JInt n) => Some n
  | Some _ => None
  end.

(** [TaskManager.load_tasks()]. *)
Definition load_tasks : M unit :=
  me ← get_self;
  present ← path_exists (filename me);
  if present : bool then
    try_except
      (data ← json_load (filename me);
       entries ← lift (res_bind (subscript data "tasks") iterate);
       loaded ← lift (comprehension Task.from_dict entries);
       match mapM id loaded, next_id_of data with
       | Some ts, Some n => set_tasks ts;; set_next_id n
       | _, _ => untyped
       end)
      load_caught
      (λ e, print ("Error loading tasks: " +:+ exn_str e);;
            set_tasks [];;
            set_next_id 1)
  else ret ().

(** [TaskManager(filename)]: the constructor; an exception that leaves
    [load_tasks] leaves the constructor too, and no manager is made. *)
Definition init (file : string) (w : World) : outcome t * World :=
  match load_tasks (mkSt (mk file [] 1) w) with
  | (Return _, st) => (Return (self st), world st)
  | (Raise e, st) => (Raise e, world st)
  | (Untyped, st) => (Untyped, world st)
  end.

(** The document [save_tasks] builds. *)
Definition to_json (me : t) : json :=
  JObj {[ "tasks" := JArr (Task.to_dict <$> tasks me);
          "next_id" := JInt (next_id me) ]}.

(** [TaskManager.save_tasks()]. *)
Definition save_tasks : M unit :=
  me ← get_self;
  json_dump (to_json me) (filename me).

(** [TaskManager.add_task(title, description)]. *)
Definition add_task (title description now : string) : M Task.t :=
  me ← get_self;
  let task := Task.init title description (next_id me) now in
  set_tasks (tasks me ++ [task]);;
  set_next_id (next_id me + 1);;
  save_tasks;;
  ret task.

(** [TaskManager.list_tasks(status)]: [if status:] is false for [None]
    and for the empty string. *)
Definition list_tasks (status : option string) : M (list Task.t) :=
  me ← get_self;
  match status with
  | Some wanted =>
      if String.eqb wanted "" then ret (tasks me)
      else ret (filter (λ task, Task.status task = wanted) (tasks me))
  | None => ret (tasks me)
  end.

(** The loop of [get_task]: the first task with the id, and its place in
    the list, which stands for the reference to the object. *)
Fixpoint find_task (ts : list Task.t) (task_id : Z) : option (nat * Task.t) :=
  match ts with
  | [] => None
  | task :: rest =>
      if Task.id task =? task_id then Some (O, task)
      else prod_map S id <$> find_task rest task_id
  end.

(** [TaskManager.get_task(task_id)]. *)
Definition get_task (task_id : Z) : M (option Task.t) :=
  me ← get_self;
  ret (snd <$> find_task (tasks me) task_id).

(** [TaskManager.complete_task(task_id)]: [task.complete()] changes the
    object in the list. *)
Definition complete_task (task_id : Z) (now : string) : M bool :=
  me ← get_self;
  match find_task (tasks me) task_id with
  | Some (place, task) =>
      if negb (String.eqb (Task.status task) "completed") then
        set_tasks (<[place := Task.complete now task]> (tasks me));;
        save_tasks;;
        ret true
      else ret false
  | None => ret false
  end.

(** [TaskManager.delete_task(task_id)]: [Task] has no [__eq__], so
    [self.tasks.remove(task)] removes the object [get_task] found. *)
Definition delete_task (task_id : Z) : M bool :=
  me ← get_self;
  match find_task (tasks me) task_id with
  | Some (place, _) =>
      set_tasks (delete place (tasks me));;
      save_tasks;;
      ret true
  | None => ret false
  end.

(** [TaskManager.get_statistics()]. *)
Definition get_statistics : M (gmap string Z) :=
  me ← get_self;
  let total := Z.of_nat (length (tasks me)) in
  let completed :=
    Z.of_nat (length (filter (λ task, Task.status task = "completed") (tasks me))) in
  let pending := total - completed in
  ret {[ "total" := total; "completed" := completed; "pending" := pending ]}.

End TaskManager.

Import TaskManager.

(** ** Runs of the store *)

(** The store before anything is added: what [TaskManager(file)] makes when
    the file does not exist. *)
Definition empty_store (file : string) : TaskManager.t := TaskManager.mk file [] 1.

(** The three mutating calls, with the clock reading of those that take one. *)
Inductive op : Type :=
  | AddTask (title description now : string)
  | CompleteTask (task_id : Z) (now : string)
  | DeleteTask (task_id : Z).

(** What a call gives back. *)
Inductive value : Type :=
  | VTask (task : Task.t)
  | VBool (b : bool).

Definition exec (o : op) : M value :=
  match o with
  | AddTask title description now =>
      task ← add_task title description now; mret (VTask task)
  | CompleteTask task_id now => done ← complete_task task_id now; mret (VBool done)
  | DeleteTask task_id => done ← delete_task task_id; mret (VBool done)
  end.

(** A caller that makes the calls one after the other on the same manager
    and goes on after a call that raised. *)
Fixpoint run (ops : list op) (st : St) : list (outcome value) * St :=
  match ops with
  | [] => ([], st)
  | o :: ops' =>
      let (r, st') := exec o st in
      let (rs, st'') := run ops' st' in
      (r :: rs, st'')
  end.

(** The ids of the tasks the [add_task] calls of a run returned. *)
Fixpoint assigned_ids (results : list (outcome value)) : list Z :=
  match results with
  | [] => []
  | Return (VTask task) :: rest => Task.id task :: assigned_ids rest
  | _ :: rest => assigned_ids rest
  end.

(** The managers that calls of add_task, complete_task and delete_task
    reach from the empty store, whatever the world does to each call. *)
Inductive reachable : TaskManager.t → Prop :=
  | reachable_empty file : reachable (empty_store file)
  | reachable_step me w o r st' :
      reachable me → exec o (mkSt me w) = (r, st') → reachable (self st').

(** ** Predicates of the statements *)

(** The next [open(filename, 'w')] succeeds. *)
Definition next_write_ok (w : World) : Prop := fails <$> head (faults w) ≠ Some true.

(** What a successful [save_tasks] of [me] leaves of the world. *)
Definition saved (me : TaskManager.t) (w : World) : World :=
  mkWorld (<[filename me := Document (to_json me)]> (files w)) (stdout w) (tail (faults w)).

(** [completed_at] is set exactly when the status is "completed". *)
Definition coupled (task : Task.t) : Prop :=
  Task.completed_at task ≠ None ↔ Task.status task = "completed".

(** The ids of the tasks are in strictly increasing order and below
    [next_id]. *)
Definition ids_in_order (me : TaskManager.t) : Prop :=
  StronglySorted Z.lt (Task.id <$> tasks me) ∧
  Forall (λ task, Task.id task < next_id me) (tasks me).

(** The state the [except] clause of [load_tasks] leaves after catching [e]:
    the error printed, no task, [next_id] 1. *)
Definition recovered (me : TaskManager.t) (w : World) (e : exn) : St :=
  mkSt (TaskManager.mk (filename me) [] 1)
       (mkWorld (files w) (stdout w ++ ["Error loading tasks: " +:+ exn_str e]) (faults w)).

(** The keys [Task.from_dict] subscripts. *)
Definition required_keys : list string :=
  ["title"; "description"; "id"; "status"; "created_at"].

(** A task entry [from_dict] can read: an object with the five keys. *)
Definition has_fields (v : json) : Prop :=
  match v with
  | JObj members => ∀ key, key ∈ required_keys → is_Some (members !! key)
  | _ => False
  end.

(** A task entry that is an object without one of the five keys. *)
Definition lacks_field (v : json) : Prop :=
  match v with
  | JObj members => ∃ key, key ∈ required_keys ∧ members !! key = None
  | _ => False
  end.

(** File contents [load_tasks] recovers from: a text that is no JSON, a JSON
    object without "tasks", and a JSON object whose "tasks" is an array in
    which an object that lacks a required key comes after nothing but
    entries that can be read. *)
Inductive unloadable : file_content → Prop :=
  | unloadable_text msg : unloadable (Malformed msg)
  | unloadable_no_tasks members :
      members !! "tasks" = None → unloadable (Document (JObj members))
  | unloadable_task members good bad rest :
      members !! "tasks" = Some (JArr (good ++ bad :: rest)) →
      Forall has_fields good →
      lacks_field bad →
      unloadable (Document (JObj members)).

(** The world of the examples: no file, nothing printed, no write fails. *)
Definition quiet : World := mkWorld ∅ [] [].

(** ** The command line: main() *)

(** What [parser.parse_args()] hands to [main]: the subcommand with its
    arguments, or no subcommand. argparse has checked that a status is
    "pending" or "completed" and that an id is an integer. *)
Inductive args : Type :=
  | ArgsAdd (title description : string)
  | ArgsList (status : option string)
  | ArgsComplete (task_id : Z)
  | ArgsDelete (task_id : Z)
  | ArgsStats
  | ArgsNone.

(** [s * n] on a string. *)
Fixpoint str_mul (s : string) (n : nat) : string :=
  match n with
  | O => ""
  | S n' => s +:+ str_mul s n'
  end.

(** The loop of the list command. *)
Fixpoint print_tasks (ts : list Task.t) : M unit :=
  match ts with
  | [] => mret ()
  | task :: rest =>
      print (Task.str task);;
      (if String.eqb (Task.description task) "" then mret ()
       else print ("    Description: " +:+ Task.description task));;
      print_tasks rest
  end.

(** [stats[key]]. *)
Definition stat (stats : gmap string Z) (key : string) : M Z :=
  match stats !! key with
  | Some n => mret n
  | None => raise (KeyError key)
  end.

Section Main.

(** Two texts Python's library makes: the completion rate
    [f"{(completed / total) * 100:.1f}"], a float rounded to one decimal,
    and the help message of the parser. *)
Variable rate_text : Z → Z → string.
Variable help_text : string.

(** The branches of [main] after the manager is made. *)
Definition command (a : args) (now : string) : M unit :=
  match a with
  | ArgsAdd title description =>
      task ← add_task title description now;
      print ("Task added: " +:+ Task.str task)
  | ArgsList status =>
      listed ← list_tasks status;
      match listed with
      | [] => print "No tasks found."
      | _ =>
          print (String "010"%char "Tasks:");;
          print (str_mul "-" 50);;
          print_tasks listed;;
          print (str_mul "-" 50)
      end
  | ArgsComplete task_id =>
      done ← complete_task task_id now;
      if done : bool then print ("Task " +:+ pretty task_id +:+ " marked as completed!")
      else print ("Task " +:+ pretty task_id +:+ " not found or already completed.")
  | ArgsDelete task_id =>
      done ← delete_task task_id;
      if done : bool then print ("Task " +:+ pretty task_id +:+ " deleted.")
      else print ("Task " +:+ pretty task_id +:+ " not found.")
  | ArgsStats =>
      stats ← get_statistics;
      print (String "010"%char "Task Statistics:");;
      total ← stat stats "total";
      print ("Total tasks: " +:+ pretty total);;
      completed ← stat stats "completed";
      print ("Completed: " +:+ pretty completed);;
      pending ← stat stats "pending";
      print ("Pending: " +:+ pretty pending);;
      total ← stat stats "total";
      if 0 <? total then
        completed ← stat stats "completed";
        total ← stat stats "total";
        print ("Completion rate: " +:+ rate_text completed total +:+ "%")
      else mret ()
  | ArgsNone => print help_text
  end.

(** [main()], from [manager = TaskManager()] on: one run of the program on
    the world [w]. *)
Definition main (a : args) (now : string) (w : World) : outcome unit * World :=
  match init "tasks.json" w with
  | (Return manager, w1) =>
      let (r, st) := command a now (mkSt manager w1) in (r, world st)
  | (Raise e, w1) => (Raise e, w1)
  | (Untyped, w1) => (Untyped, w1)
  end.

(** The program run once per command, each run on the world the one before
    left, going on after a run that failed. *)
Fixpoint main_runs (cmds : list (args * string)) (w : World) : World :=
  match cmds with
  | [] => w
  | (a, now) :: rest => main_runs rest (snd (main a now w))
  end.

End Main.

(** The call of the manager a command makes, when it makes one that can
    change the store. *)
Definition op_of_args (a : args) (now : string) : option op :=
  match a with
  | ArgsAdd title description => Some (AddTask title description now)
  | ArgsComplete task_id => Some (CompleteTask task_id now)
  | ArgsDelete task_id => Some (DeleteTask task_id)
  | _ => None
  end.

(** The world holds the store [me] in the file [file]: the file is the
    document of [me], or there is no file and [me] is the empty store. *)
Definition stored (file : string) (w : World) (me : TaskManager.t) : Prop :=
  filename me = file ∧
  (files w !! file = Some (Document (to_json me)) ∨
   (files w !! file = None ∧ me = empty_store file)).

(** A status [Task.__init__] or [Task.complete] sets. *)
Definition status_set (task : Task.t) : Prop :=
  Task.status task = "pending" ∨ Task.status task = "completed".

(** A value that cannot be iterated, or whose iteration gives strings. *)
Definition no_task_list (v : json) : Prop :=
  match v with
  | JArr _ => False
  | JObj members => members ≠ ∅
  | JStr s => s ≠ ""
  | _ => True
  end.

(** File contents on which [load_tasks] raises [TypeError]: JSON that is
    not an object, an object whose "tasks" is no list (and is not an empty
    dict or string), and an object whose "tasks" is an array in which an
    entry that is no object comes after nothing but entries that can be
    read. *)
Inductive ill_shaped : file_content → Prop :=
  | ill_shaped_top data :
      match data with JObj _ => False | _ => True end →
      ill_shaped (Document data)
  | ill_shaped_tasks members v :
      members !! "tasks" = Some v → no_task_list v →
      ill_shaped (Document (JObj members))
  | ill_shaped_entry members good bad rest :
      members !! "tasks" = Some (JArr (good ++ bad :: rest)) →
      Forall has_fields good →
      match bad with JObj _ => False | _ => True end →
      ill_shaped (Document (JObj members)).

(** File contents [load_tasks] reads without an exception: an object whose
    "tasks" is an array of entries that can be read (or an empty dict or
    string). *)
Definition readable (content : file_content) : Prop :=
  ∃ members v entries,
    content = Document (JObj members) ∧ members !! "tasks" = Some v ∧
    iterate v = Ok entries ∧ Forall has_fields entries.

(** A string without a colon, as a decimal numeral is. *)
Fixpoint colon_free (s : string) : Prop :=
  match s with
  | EmptyString => True
  | String c s' => c ≠ ":"%char ∧ colon_free s'
  end.

(** The lines the list command prints for one task, and for the tasks it
    lists. *)
Definition task_lines (task : Task.t) : list string :=
  Task.str task ::
  (if String.eqb (Task.description task) "" then []
   else ["    Description: " +:+ Task.description task]).

Definition list_lines (listed : list Task.t) : list string :=
  match listed with
  | [] => ["No tasks found."]
  | _ => [String "010"%char "Tasks:"; str_mul "-" 50]
         ++ concat (task_lines <$> listed) ++ [str_mul "-" 50]
  end.

(** The world with [lines] printed after what was printed before. *)
Definition printed (w : World) (lines : list string) : World :=
  mkWorld (files w) (stdout w ++ lines) (faults w).

(** The calls of the manager a sequence of commands makes. *)
Definition ops_of (cmds : list (args * string)) : list op :=
  omap (λ cmd, op_of_args cmd.1 cmd.2) cmds.

(** The calls of add_task among the calls of a run. *)
Definition is_add (o : op) : bool :=
  match o with
  | AddTask _ _ _ => true
  | _ => false
  end.

(** ** Auxiliary facts *)

(** Opens the monad in a goal about one method call. *)
Ltac open_call :=
  unfold exec, add_task, complete_task, delete_task, save_tasks, get_task,
    list_tasks, get_statistics, mbind, mret, M_bind, M_ret, bind, ret,
    get_self, set_tasks, set_next_id, json_dump; simpl.

Section FindTask.

Implicit Types (ts : list Task.t) (task : Task.t) (place : nat).

Lemma find_task_lookup ts task_id place task :
  find_task ts task_id = Some (place, task) →
  ts !! place = Some task ∧ Task.id task = task_id.
Proof.
  revert place. induction ts as [|t0 ts IH]; intros place Hf; simpl in Hf.
  - discriminate.
  - destruct (Z.eqb_spec (Task.id t0) task_id) as [Heq|Hne].
    + injection Hf as <- <-. done.
    + destruct (find_task ts task_id) as [[p t1]|]; simpl in Hf; [|discriminate].
      injection Hf as <- <-. simpl. by apply IH.
Qed.

(** The loop stops at the first task with the id. *)
Lemma find_task_first ts task_id place task :
  find_task ts task_id = Some (place, task) →
  ∀ j t', (j < place)%nat → ts !! j = Some t' → Task.id t' ≠ task_id.
Proof.
  revert place. induction ts as [|t0 ts IH]; intros place Hf j t' Hj Hl; simpl in Hf.
  - discriminate.
  - destruct (Z.eqb_spec (Task.id t0) task_id) as [Heq|Hne].
    + injection Hf as <- <-. lia.
    + destruct (find_task ts task_id) as [[p t1]|]; simpl in Hf; [|discriminate].
      injection Hf as <- <-. destruct j as [|j]; simpl in Hl.
      * by injection Hl as <-.
      * eapply (IH p); [done| |done]. lia.
Qed.

Lemma find_task_None ts task_id :
  find_task ts task_id = None ↔ Forall (λ task, Task.id task ≠ task_id) ts.
Proof.
  induction ts as [|t0 ts IH]; simpl.
  - split; [constructor|done].
  - destruct (Z.eqb_spec (Task.id t0) task_id) as [Heq|Hne].
    + split; [done|]. intros H. inversion H; subst. done.
    + rewrite Forall_cons, <- IH.
      destruct (find_task ts task_id) as [[p t1]|]; simpl.
      * split; [done | by intros [_ ?]].
      * split; [done | by intros [_ ?]].
Qed.

(** After [task.complete()] the loop finds the completed object at the
    same place. *)
Lemma find_task_complete ts task_id place task now :
  find_task ts task_id = Some (place, task) →
  find_task (<[place := Task.complete now task]> ts) task_id
  = Some (place, Task.complete now task).
Proof.
  revert place. induction ts as [|t0 ts IH]; intros place Hf; simpl in Hf.
  - discriminate.
  - destruct (Z.eqb_spec (Task.id t0) task_id) as [Heq|Hne].
    + injection Hf as <- <-. simpl. by rewrite (proj2 (Z.eqb_eq _ _) Heq).
    + destruct (find_task ts task_id) as [[p t1]|] eqn:E; simpl in Hf; [|discriminate].
      injection Hf as <- <-. simpl.
      rewrite (proj2 (Z.eqb_neq _ _) Hne). by rewrite (IH p).
Qed.

End FindTask.

(** What each mutating call leaves in [self], whatever the write did. *)
Lemma add_task_self me w title description now :
  self (snd (add_task title description now (mkSt me w)))
  = TaskManager.mk (filename me)
      (tasks me ++ [Task.init title description (next_id me) now])
      (next_id me + 1).
Proof. open_call. by destruct (faults w) as [|[| |msg] later]. Qed.

Lemma complete_task_self me w task_id now :
  self (snd (complete_task task_id now (mkSt me w)))
  = match find_task (tasks me) task_id with
    | Some (place, task) =>
        if negb (String.eqb (Task.status task) "completed")
        then TaskManager.mk (filename me)
               (<[place := Task.complete now task]> (tasks me)) (next_id me)
        else me
    | None => me
    end.
Proof.
  open_call. destruct (find_task (tasks me) task_id) as [[place task]|]; [|done].
  destruct (negb _); [|done]. simpl. by destruct (faults w) as [|[| |msg] later].
Qed.

Lemma delete_task_self me w task_id :
  self (snd (delete_task task_id (mkSt me w)))
  = match find_task (tasks me) task_id with
    | Some (place, _) =>
        TaskManager.mk (filename me) (delete place (tasks me)) (next_id me)
    | None => me
    end.
Proof.
  open_call. destruct (find_task (tasks me) task_id) as [[place task]|]; [|done].
  simpl. by destruct (faults w) as [|[| |msg] later].
Qed.

Lemma exec_self o me w :
  self (snd (exec o (mkSt me w)))
  = match o with
    | AddTask title description now =>
        self (snd (add_task title description now (mkSt me w)))
    | CompleteTask task_id now => self (snd (complete_task task_id now (mkSt me w)))
    | DeleteTask task_id => self (snd (delete_task task_id (mkSt me w)))
    end.
Proof.
  destruct o; unfold exec, mbind, M_bind, bind, mret, M_ret, ret.
  - by destruct (add_task _ _ _ _) as [[?|?|] ?].
  - by destruct (complete_task _ _ _) as [[?|?|] ?].
  - by destruct (delete_task _ _) as [[?|?|] ?].
Qed.

(** ** Invariants of the reachable stores *)

Lemma coupled_init title description task_id now :
  coupled (Task.init title description task_id now).
Proof. unfold coupled; simpl. split; [done | discriminate]. Qed.

Lemma coupled_complete now task : coupled (Task.complete now task).
Proof. unfold coupled; simpl. split; [done | discriminate]. Qed.

Lemma exec_coupled o me w :
  Forall coupled (tasks me) → Forall coupled (tasks (self (snd (exec o (mkSt me w))))).
Proof.
  intros Hall. rewrite exec_self. destruct o as [ti de now|task_id now|task_id].
  - rewrite add_task_self; simpl. apply Forall_app. split; [done|].
    constructor; [apply coupled_init | constructor].
  - rewrite complete_task_self.
    destruct (find_task (tasks me) task_id) as [[place task]|]; [|done].
    destruct (negb _); [|done]. simpl.
    apply Forall_insert; [done | apply coupled_complete].
  - rewrite delete_task_self.
    destruct (find_task (tasks me) task_id) as [[place task]|]; [|done].
    simpl. by apply Forall_delete.
Qed.

Section Sublists.

Context {A : Type} (R : relation A).

Lemma Forall_of_sublist (P : A → Prop) (l k : list A) :
  sublist l k → Forall P k → Forall P l.
Proof.
  induction 1 as [|x l k _ IH|x l k _ IH]; intros Hall.
  - constructor.
  - apply Forall_cons in Hall as [Hx Hall]. constructor; auto.
  - apply Forall_cons in Hall as [_ Hall]. auto.
Qed.

Lemma StronglySorted_of_sublist (l k : list A) :
  sublist l k → StronglySorted R k → StronglySorted R l.
Proof.
  induction 1 as [|x l k Hsub IH|x l k _ IH]; intros Hs.
  - constructor.
  - apply StronglySorted_inv in Hs as [Hs Hx].
    constructor; [auto | by apply (Forall_of_sublist _ l k)].
  - apply StronglySorted_inv in Hs as [Hs _]. auto.
Qed.

End Sublists.

Lemma StronglySorted_lt_NoDup (l : list Z) : StronglySorted Z.lt l → NoDup l.
Proof.
  induction 1 as [|x l _ IH Hx]; constructor; [|done].
  intros Hin. rewrite Forall_forall in Hx. specialize (Hx x Hin). lia.
Qed.

Lemma exec_ids_in_order o me w :
  ids_in_order me → ids_in_order (self (snd (exec o (mkSt me w)))).
Proof.
  intros [Hs Hb]. rewrite exec_self. destruct o as [ti de now|task_id now|task_id].
  - rewrite add_task_self. split; simpl.
    + rewrite fmap_app. apply StronglySorted_app. split_and!.
      * intros x1 x2 H1 H2. apply list_elem_of_fmap in H1 as (t1 & -> & H1).
        simpl in H2. apply list_elem_of_singleton in H2 as ->.
        rewrite Forall_forall in Hb. by apply Hb.
      * done.
      * repeat constructor.
    + apply Forall_app. split.
      * eapply Forall_impl; [exact Hb|]. simpl. intros; lia.
      * constructor; [simpl; lia | constructor].
  - rewrite complete_task_self.
    destruct (find_task (tasks me) task_id) as [[place task]|] eqn:Hf; [|done].
    destruct (negb _); [|done].
    apply find_task_lookup in Hf as [Hl Hid]. split; simpl.
    + rewrite list_fmap_insert. simpl.
      rewrite list_insert_id; [done|]. by rewrite list_lookup_fmap, Hl.
    + apply Forall_insert; [done|]. simpl.
      rewrite Forall_forall in Hb. apply Hb. by eapply list_elem_of_lookup_2.
  - rewrite delete_task_self.
    destruct (find_task (tasks me) task_id) as [[place task]|] eqn:Hf; [|done].
    split; simpl.
    + rewrite list_fmap_delete.
      eapply StronglySorted_of_sublist; [apply sublist_delete | done].
    + by apply Forall_delete.
Qed.

Lemma reachable_coupled me : reachable me → Forall coupled (tasks me).
Proof.
  induction 1 as [file|me w o r st' _ IH Hex].
  - constructor.
  - replace st' with (snd (exec o (mkSt me w))) by (by rewrite Hex).
    by apply exec_coupled.
Qed.

Lemma reachable_ids_in_order me : reachable me → ids_in_order me.
Proof.
  induction 1 as [file|me w o r st' _ IH Hex].
  - split; constructor.
  - replace st' with (snd (exec o (mkSt me w))) by (by rewrite Hex).
    by apply exec_ids_in_order.
Qed.

(** ** Saving and loading *)

Lemma from_dict_to_dict task : Task.from_dict (Task.to_dict task) = Ok (Some task).
Proof. by destruct task as [i ti de st cr [stamp|]]. Qed.

Lemma comprehension_to_dict ts :
  comprehension Task.from_dict (Task.to_dict <$> ts) = Ok (Some <$> ts).
Proof.
  induction ts as [|task ts IH]; [done|].
  rewrite fmap_cons. cbn [comprehension].
  rewrite from_dict_to_dict. cbn [res_bind]. rewrite IH. done.
Qed.

Lemma subscript_to_json me :
  subscript (to_json me) "tasks" = Ok (JArr (Task.to_dict <$> tasks me)).
Proof. reflexivity. Qed.

Lemma next_id_of_to_json me : next_id_of (to_json me) = Some (next_id me).
Proof. reflexivity. Qed.

Lemma save_tasks_ok me w :
  next_write_ok w → save_tasks (mkSt me w) = (Return (), mkSt me (saved me w)).
Proof.
  unfold next_write_ok, saved. intros Hok. open_call.
  destruct (faults w) as [|[| |msg] later]; simpl in *; done.
Qed.

Lemma save_tasks_fails me w fate later :
  faults w = fate :: later → fails fate = true →
  save_tasks (mkSt me w)
  = (Raise OSError,
     mkSt me (mkWorld (left_by fate (filename me) (files w)) (stdout w) later)).
Proof. intros Hf Hfate. open_call. rewrite Hf. by destruct fate. Qed.

(** [load_tasks] on a file that holds a JSON document, by what the body of
    its [try] does. *)
Lemma load_tasks_Document me w data :
  files w !! filename me = Some (Document data) →
  load_tasks (mkSt me w)
  = match res_bind (res_bind (subscript data "tasks") iterate)
                   (comprehension Task.from_dict) with
    | Ok loaded =>
        match mapM id loaded, next_id_of data with
        | Some ts, Some n => (Return (), mkSt (TaskManager.mk (filename me) ts n) w)
        | _, _ => (Untyped, mkSt me w)
        end
    | Raised e => if load_caught e then (Return (), recovered me w e)
                  else (Raise e, mkSt me w)
    end.
Proof.
  intros Hfile.
  unfold load_tasks, mbind, M_bind, bind, get_self, path_exists, try_except,
    json_load. simpl.
  rewrite Hfile. rewrite bool_decide_true by eauto. simpl. rewrite Hfile.
  destruct (subscript data "tasks") as [v|e]; simpl.
  - destruct (iterate v) as [entries|e]; simpl.
    + destruct (comprehension Task.from_dict entries) as [loaded|e]; simpl.
      * destruct (mapM id loaded) as [ts|]; [|done].
        by destruct (next_id_of data) as [n|].
      * by destruct (load_caught e).
    + by destruct (load_caught e).
  - by destruct (load_caught e).
Qed.

Lemma load_tasks_Malformed me w msg :
  files w !! filename me = Some (Malformed msg) →
  load_tasks (mkSt me w) = (Return (), recovered me w (JSONDecodeError msg)).
Proof.
  intros Hfile.
  unfold load_tasks, mbind, M_bind, bind, get_self, path_exists, try_except,
    json_load. simpl.
  rewrite Hfile. rewrite bool_decide_true by eauto. simpl. by rewrite Hfile.
Qed.

(** A path that exists and cannot be read as text: the exception of the
    open or of the read is none the except clause names, and leaves
    [load_tasks]. *)
Lemma load_tasks_unreadable me w content e :
  files w !! filename me = Some content →
  (content = Unreadable ∧ e = OSError) ∨ (content = Undecodable ∧ e = UnicodeDecodeError) →
  load_tasks (mkSt me w) = (Raise e, mkSt me w).
Proof.
  intros Hfile Hcontent.
  unfold load_tasks, mbind, M_bind, bind, get_self, path_exists, try_except,
    json_load. simpl.
  rewrite Hfile. rewrite bool_decide_true by eauto. simpl. rewrite Hfile.
  by destruct Hcontent as [[-> ->]|[-> ->]].
Qed.

Lemma load_tasks_absent me w :
  files w !! filename me = None → load_tasks (mkSt me w) = (Return (), mkSt me w).
Proof.
  intros Hfile.
  unfold load_tasks, mbind, M_bind, bind, get_self, path_exists. simpl.
  rewrite Hfile. rewrite bool_decide_false; [done|]. by intros [? ?].
Qed.

(** Loading a file that [save_tasks] wrote for [saved_me]. *)
Lemma load_tasks_saved me saved_me w :
  files w !! filename me = Some (Document (to_json saved_me)) →
  load_tasks (mkSt me w)
  = (Return (), mkSt (TaskManager.mk (filename me) (tasks saved_me) (next_id saved_me)) w).
Proof.
  intros Hfile. rewrite (load_tasks_Document _ _ _ Hfile).
  rewrite subscript_to_json, next_id_of_to_json. simpl.
  rewrite comprehension_to_dict.
  by rewrite (mapM_fmap_Some id Some) by done.
Qed.

(** The constructor on a file that does not exist makes the empty store. *)
Lemma init_absent file w :
  files w !! file = None → init file w = (Return (empty_store file), w).
Proof.
  intros Hfile. unfold init.
  by rewrite (load_tasks_absent (TaskManager.mk file [] 1) w).
Qed.

Lemma init_saved file saved_me w :
  files w !! file = Some (Document (to_json saved_me)) →
  init file w = (Return (TaskManager.mk file (tasks saved_me) (next_id saved_me)), w).
Proof.
  intros Hfile. unfold init.
  by rewrite (load_tasks_saved (TaskManager.mk file [] 1) saved_me w).
Qed.

(** C1. Round trip of the store through its file. For every sequence of
    add_task, complete_task and delete_task calls on an initially empty
    store: when the write succeeds, save_tasks leaves the manager as it is,
    and a fresh manager made on the file written has the same tasks, equal in
    every field (id, title, description, status, created_at, completed_at),
    and the same next_id. *)
Theorem save_load_roundtrip (ops : list op) (file : string) (w0 : World) :
  let st := snd (run ops (mkSt (empty_store file) w0)) in
  next_write_ok (world st) →
  ∃ w1 fresh,
    save_tasks st = (Return (), mkSt (self st) w1) ∧
    init (filename (self st)) w1 = (Return fresh, w1) ∧
    tasks fresh = tasks (self st) ∧
    next_id fresh = next_id (self st).
Proof.
  intros st Hok. destruct st as [me w] eqn:Hst. simpl in *.
  exists (saved me w), (TaskManager.mk (filename me) (tasks me) (next_id me)).
  split_and!; [by apply save_tasks_ok| |done|done].
  apply init_saved. unfold saved; simpl. apply lookup_insert_eq.
Qed.

Lemma save_load_roundtrip_witness :
  let ops := [AddTask "Buy milk" "" "2024-01-01T09:00:00";
              AddTask "Call Ann" "about the keys" "2024-01-01T09:05:00";
              CompleteTask 1 "2024-01-02T08:00:00";
              DeleteTask 2;
              AddTask "Pay rent" "" "2024-01-03T10:00:00"] in
  let st := snd (run ops (mkSt (empty_store "tasks.json") quiet)) in
  ∃ w1 fresh,
    save_tasks st = (Return (), mkSt (self st) w1) ∧
    init (filename (self st)) w1 = (Return fresh, w1) ∧
    tasks fresh = tasks (self st) ∧
    next_id fresh = next_id (self st).
Proof.
  intros ops st. apply (save_load_roundtrip ops "tasks.json" quiet).
  vm_compute. discriminate.
Defined.

(** ** Files [load_tasks] cannot read *)

Lemma from_dict_has_fields v : has_fields v → ∃ r, Task.from_dict v = Ok r.
Proof.
  destruct v as [| | | | | |members]; simpl; try done.
  intros Hall. unfold Task.from_dict, subscript, required_keys in *.
  destruct (Hall "title") as [? ->]; [set_solver|].
  destruct (Hall "description") as [? ->]; [set_solver|].
  destruct (Hall "id") as [? ->]; [set_solver|].
  destruct (Hall "status") as [? ->]; [set_solver|].
  destruct (Hall "created_at") as [? ->]; [set_solver|].
  simpl. eauto.
Qed.

Lemma from_dict_lacks_field v :
  lacks_field v → ∃ key, Task.from_dict v = Raised (KeyError key).
Proof.
  destruct v as [| | | | | |members]; simpl; try done.
  intros (key & Hkey & Hnone).
  unfold Task.from_dict, subscript.
  destruct (members !! "title") eqn:E1; simpl; [|eauto].
  destruct (members !! "description") eqn:E2; simpl; [|eauto].
  destruct (members !! "id") eqn:E3; simpl; [|eauto].
  destruct (members !! "status") eqn:E4; simpl; [|eauto].
  destruct (members !! "created_at") eqn:E5; simpl; [|eauto].
  unfold required_keys in Hkey.
  repeat (apply elem_of_cons in Hkey as [->|Hkey]; [congruence|]).
  by apply elem_of_nil in Hkey.
Qed.

(** The comprehension stops at the first entry that lacks a key. *)
Lemma comprehension_lacks_field good bad rest :
  Forall has_fields good → lacks_field bad →
  ∃ key, comprehension Task.from_dict (good ++ bad :: rest) = Raised (KeyError key).
Proof.
  intros Hgood Hbad. induction Hgood as [|v good Hv _ IH]; simpl.
  - destruct (from_dict_lacks_field bad Hbad) as [key ->]. simpl. eauto.
  - destruct (from_dict_has_fields v Hv) as [r ->]. simpl.
    destruct IH as [key ->]. simpl. eauto.
Qed.

(** C2, as stated, fails: a file that is valid JSON but has another shape
    than [load_tasks] expects raises [TypeError], which its [except] clause
    does not catch. Here the file is [{"tasks": ["Buy milk"]}], whose one
    task entry is a string and so has none of the required fields: the
    exception leaves [load_tasks] and the constructor, and nothing is
    printed. *)
Lemma load_tasks_TypeError_escapes :
  let w := mkWorld {[ "tasks.json" := Document (JObj {[ "tasks" := JArr [JStr "Buy milk"] ]}) ]}
                   [] [] in
  load_tasks (mkSt (empty_store "tasks.json") w)
    = (Raise TypeError, mkSt (empty_store "tasks.json") w) ∧
  init "tasks.json" w = (Raise TypeError, w).
Proof. split; reflexivity. Qed.

(** C2, amended. When the file is present and is no JSON text, or is a JSON
    object without "tasks", or is a JSON object whose "tasks" is an array of
    objects one of which lacks one of title, description, id, status,
    created_at, then load_tasks returns without raising, prints the error
    (a JSONDecodeError or a KeyError) and leaves the manager with no task and
    next_id 1. *)
Theorem load_tasks_recovers (me : TaskManager.t) (w : World) (content : file_content) :
  files w !! filename me = Some content →
  unloadable content →
  ∃ e, load_caught e = true ∧
       load_tasks (mkSt me w) = (Return (), recovered me w e) ∧
       tasks (self (recovered me w e)) = [] ∧
       next_id (self (recovered me w e)) = 1 ∧
       stdout (world (recovered me w e))
         = stdout w ++ ["Error loading tasks: " +:+ exn_str e].
Proof.
  intros Hfile Hcontent.
  destruct Hcontent as [msg|members Hnone|members good bad rest Hsome Hgood Hbad].
  - exists (JSONDecodeError msg). split_and!; try done.
    by apply load_tasks_Malformed.
  - exists (KeyError "tasks"). split_and!; try done.
    rewrite (load_tasks_Document _ _ _ Hfile). unfold subscript. by rewrite Hnone.
  - destruct (comprehension_lacks_field good bad rest Hgood Hbad) as [key Hkey].
    exists (KeyError key). split_and!; try done.
    rewrite (load_tasks_Document _ _ _ Hfile). unfold subscript. rewrite Hsome.
    simpl. by rewrite Hkey.
Qed.

Lemma load_tasks_recovers_witness :
  let me := TaskManager.mk "tasks.json" [Task.init "old" "" 7 "2024-01-01T09:00:00"] 8 in
  let first := Task.to_dict (Task.init "Call Ann" "" 1 "2024-01-01T09:05:00") in
  let second := JObj {[ "title" := JStr "Buy milk" ]} in
  let content := Document (JObj {[ "tasks" := JArr [first; second; JNull];
                                   "next_id" := JInt 3 ]}) in
  let w := mkWorld {[ "tasks.json" := content ]} [] [] in
  ∃ e, load_caught e = true ∧
       load_tasks (mkSt me w) = (Return (), recovered me w e) ∧
       tasks (self (recovered me w e)) = [] ∧
       next_id (self (recovered me w e)) = 1 ∧
       stdout (world (recovered me w e))
         = stdout w ++ ["Error loading tasks: " +:+ exn_str e].
Proof.
  intros me first second content w.
  apply (load_tasks_recovers me w content).
  - reflexivity.
  - apply (unloadable_task _ [first] second [JNull]).
    + reflexivity.
    + constructor; [|constructor].
      intros key Hkey. unfold required_keys in Hkey.
      repeat (apply elem_of_cons in Hkey as [->|Hkey]; [by eexists|]).
      by apply elem_of_nil in Hkey.
    + exists "description". split; [|reflexivity].
      apply list_elem_of_further, list_elem_of_here.
Defined.

(** What is printed for a task entry without "description". *)
Example load_tasks_prints_key :
  let content := Document (JObj {[ "tasks" := JArr [JObj {[ "title" := JStr "Buy milk" ]}] ]}) in
  let w := mkWorld {[ "tasks.json" := content ]} [] [] in
  init "tasks.json" w
  = (Return (empty_store "tasks.json"),
     mkWorld (files w) ["Error loading tasks: 'description'"] []).
Proof. reflexivity. Qed.

(** ** The operations *)

Lemma get_task_eq me w task_id :
  get_task task_id (mkSt me w) = (Return (snd <$> find_task (tasks me) task_id), mkSt me w).
Proof. reflexivity. Qed.

Lemma get_task_found me w task_id task :
  fst (get_task task_id (mkSt me w)) = Return (Some task) →
  ∃ place, find_task (tasks me) task_id = Some (place, task).
Proof.
  rewrite get_task_eq. simpl. intros [= Hf].
  destruct (find_task (tasks me) task_id) as [[place t0]|]; [|done].
  injection Hf as <-. eauto.
Qed.

Lemma get_task_missing me w task_id :
  fst (get_task task_id (mkSt me w)) = Return None →
  find_task (tasks me) task_id = None.
Proof.
  rewrite get_task_eq. simpl. intros [= Hf].
  by destruct (find_task (tasks me) task_id) as [[place t0]|].
Qed.

(** C3. complete_task(task_id), for every store and id. When get_task
    finds no task with the id it returns False and changes nothing. When the
    task found is already completed it returns False and changes nothing:
    completed_at keeps its value and no file is written. When the task found
    is pending (and the write succeeds) it returns True, the task in the
    list has status "completed" and completed_at stamped with the clock
    reading, the other tasks are untouched, and the file holds the new
    store; a second complete_task of the same id then returns False and
    changes nothing. *)
Theorem complete_task_cases (me : TaskManager.t) (w : World) (task_id : Z) (now : string) :
  let st := mkSt me w in
  (fst (get_task task_id st) = Return None →
     complete_task task_id now st = (Return false, st)) ∧
  (∀ task, fst (get_task task_id st) = Return (Some task) →
     Task.status task = "completed" →
     complete_task task_id now st = (Return false, st)) ∧
  (∀ task, fst (get_task task_id st) = Return (Some task) →
     Task.status task = "pending" →
     next_write_ok w →
     ∃ place me',
       find_task (tasks me) task_id = Some (place, task) ∧
       me' = TaskManager.mk (filename me)
               (<[place := Task.complete now task]> (tasks me)) (next_id me) ∧
       complete_task task_id now st = (Return true, mkSt me' (saved me' w)) ∧
       files (saved me' w) !! filename me = Some (Document (to_json me')) ∧
       fst (get_task task_id (mkSt me' (saved me' w)))
         = Return (Some (Task.complete now task)) ∧
       Task.status (Task.complete now task) = "completed" ∧
       Task.completed_at (Task.complete now task) = Some now ∧
       ∀ later, complete_task task_id later (mkSt me' (saved me' w))
                = (Return false, mkSt me' (saved me' w))).
Proof.
  intros st. subst st. split_and!.
  - intros Hnone%get_task_missing. open_call. by rewrite Hnone.
  - intros task [place Hf]%get_task_found Hst. open_call. by rewrite Hf, Hst.
  - intros task [place Hf]%get_task_found Hst Hok.
    eexists place, _. split_and!; [done|reflexivity| | | |done|done|].
    + unfold complete_task, mbind, M_bind, bind, get_self, set_tasks, mret, M_ret, ret.
      simpl. rewrite Hf, Hst. simpl.
      by rewrite save_tasks_ok.
    + unfold saved; simpl. apply lookup_insert_eq.
    + rewrite get_task_eq. simpl. by rewrite (find_task_complete _ _ _ _ now Hf).
    + intros later. unfold complete_task, mbind, M_bind, bind, get_self, mret, M_ret, ret.
      simpl. by rewrite (find_task_complete _ _ _ _ now Hf).
Qed.

Lemma complete_task_cases_witness :
  let me := TaskManager.mk "tasks.json" [Task.init "Buy milk" "" 1 "2024-01-01T09:00:00"] 2 in
  let now := "2024-01-02T08:00:00" in
  let done := TaskManager.mk "tasks.json"
                [Task.complete now (Task.init "Buy milk" "" 1 "2024-01-01T09:00:00")] 2 in
  complete_task 5 now (mkSt me quiet) = (Return false, mkSt me quiet) ∧
  complete_task 1 now (mkSt done quiet) = (Return false, mkSt done quiet) ∧
  complete_task 1 now (mkSt me quiet) = (Return true, mkSt done (saved done quiet)).
Proof.
  intros me now done.
  destruct (complete_task_cases me quiet 5 now) as (Hmissing & _ & _).
  destruct (complete_task_cases done quiet 1 now) as (_ & Hdone & _).
  destruct (complete_task_cases me quiet 1 now) as (_ & _ & Hpending).
  split_and!.
  - apply Hmissing. reflexivity.
  - apply (Hdone (Task.complete now (Task.init "Buy milk" "" 1 "2024-01-01T09:00:00")));
      reflexivity.
  - destruct (Hpending (Task.init "Buy milk" "" 1 "2024-01-01T09:00:00"))
      as (place & me' & Hfind & -> & Hrun & _); [reflexivity|reflexivity|discriminate|].
    vm_compute in Hfind. injection Hfind as <-. exact Hrun.
Defined.

(** C6. add_task(title, description), for every store. The task is built
    with the store's next_id as its id, status "pending" and no
    completed_at; it is put at the end of the list and next_id grows by one,
    and (when the write succeeds) the file holds the new store and the task
    is returned. On the empty store the task has id 1. *)
Theorem add_task_spec (me : TaskManager.t) (w : World) (title description now : string) :
  next_write_ok w →
  ∃ task me',
    add_task title description now (mkSt me w) = (Return task, mkSt me' (saved me' w)) ∧
    Task.id task = next_id me ∧
    Task.title task = title ∧ Task.description task = description ∧
    Task.status task = "pending" ∧ Task.created_at task = now ∧
    Task.completed_at task = None ∧
    tasks me' = tasks me ++ [task] ∧
    next_id me' = next_id me + 1 ∧
    filename me' = filename me ∧
    files (saved me' w) !! filename me = Some (Document (to_json me')) ∧
    (me = empty_store (filename me) → Task.id task = 1).
Proof.
  intros Hok.
  exists (Task.init title description (next_id me) now),
         (TaskManager.mk (filename me)
            (tasks me ++ [Task.init title description (next_id me) now]) (next_id me + 1)).
  split_and!; try done.
  - unfold add_task, mbind, M_bind, bind, get_self, set_tasks, set_next_id, mret, M_ret, ret.
    simpl. by rewrite save_tasks_ok.
  - unfold saved; simpl. apply lookup_insert_eq.
  - intros ->. done.
Qed.

Lemma add_task_spec_witness :
  ∃ task me',
    add_task "Buy milk" "" "2024-01-01T09:00:00" (mkSt (empty_store "tasks.json") quiet)
      = (Return task, mkSt me' (saved me' quiet)) ∧
    Task.id task = 1 ∧ Task.status task = "pending" ∧ Task.completed_at task = None.
Proof.
  destruct (add_task_spec (empty_store "tasks.json") quiet "Buy milk" "" "2024-01-01T09:00:00")
    as (task & me' & Hrun & Hid & _ & _ & Hst & _ & Hco & _); [discriminate|].
  exists task, me'. split_and!; done.
Defined.

Lemma sublist_filter_max {A} (P : A → Prop) `{!∀ x, Decision (P x)} (l ts : list A) :
  sublist l ts → Forall P l → sublist l (filter P ts).
Proof.
  induction 1 as [|x l ts _ IH|x l ts _ IH]; intros Hall.
  - constructor.
  - apply Forall_cons in Hall as [Hx Hall].
    rewrite filter_cons_True by done. constructor. by apply IH.
  - rewrite filter_cons. destruct (decide (P x)); [constructor|]; by apply IH.
Qed.

(** C7. list_tasks(status), for every store. With "pending" or
    "completed" as the filter it returns, without changing anything, the
    tasks whose status is the filter, in the order of the store: the result
    is a subsequence of the store's list, holds tasks of that status only,
    and every subsequence of the store's list made of tasks of that status
    is a subsequence of it. It is the empty list when no task has the
    status. Without a filter it returns the whole list. *)
Theorem list_tasks_spec (me : TaskManager.t) (w : World) (wanted : string) :
  wanted ∈ ["pending"; "completed"] →
  ∃ result,
    list_tasks (Some wanted) (mkSt me w) = (Return result, mkSt me w) ∧
    sublist result (tasks me) ∧
    (∀ task, task ∈ result ↔ task ∈ tasks me ∧ Task.status task = wanted) ∧
    (∀ others, sublist others (tasks me) →
               Forall (λ task, Task.status task = wanted) others →
               sublist others result) ∧
    (Forall (λ task, Task.status task ≠ wanted) (tasks me) → result = []) ∧
    list_tasks None (mkSt me w) = (Return (tasks me), mkSt me w).
Proof.
  intros Hwanted.
  exists (filter (λ task, Task.status task = wanted) (tasks me)).
  split_and!.
  - unfold list_tasks, mbind, M_bind, bind, get_self, mret, M_ret, ret. simpl.
    apply elem_of_cons in Hwanted as [->|Hwanted]; [done|].
    apply list_elem_of_singleton in Hwanted as ->. done.
  - apply sublist_filter.
  - intros task. rewrite list_elem_of_filter. tauto.
  - intros others Hsub Hall. by apply sublist_filter_max.
  - intros Hnone. induction Hnone as [|task ts Hne _ IH]; [done|].
    by rewrite filter_cons_False.
  - reflexivity.
Qed.

Lemma list_tasks_spec_witness :
  let a := Task.init "a" "" 1 "t1" in
  let b := Task.complete "t6" (Task.init "b" "" 2 "t2") in
  let c := Task.init "c" "" 3 "t3" in
  let d := Task.complete "t7" (Task.init "d" "" 4 "t4") in
  let e := Task.init "e" "" 5 "t5" in
  let me := TaskManager.mk "tasks.json" [a; b; c; d; e] 6 in
  ∃ result,
    list_tasks (Some "completed") (mkSt me quiet) = (Return result, mkSt me quiet) ∧
    sublist result (tasks me) ∧
    (∀ task, task ∈ result ↔ task ∈ tasks me ∧ Task.status task = "completed") ∧
    (∀ others, sublist others (tasks me) →
               Forall (λ task, Task.status task = "completed") others →
               sublist others result) ∧
    (Forall (λ task, Task.status task ≠ "completed") (tasks me) → result = []) ∧
    list_tasks None (mkSt me quiet) = (Return (tasks me), mkSt me quiet).
Proof.
  intros a b c d e me.
  apply (list_tasks_spec me quiet "completed").
  apply list_elem_of_further, list_elem_of_here.
Defined.

(** Scenario 5: of two completed and three pending tasks, the filter
    "completed" gives the two completed ones in the order of the store. *)
Example list_tasks_completed :
  let a := Task.init "a" "" 1 "t1" in
  let b := Task.complete "t6" (Task.init "b" "" 2 "t2") in
  let c := Task.init "c" "" 3 "t3" in
  let d := Task.complete "t7" (Task.init "d" "" 4 "t4") in
  let e := Task.init "e" "" 5 "t5" in
  let me := TaskManager.mk "tasks.json" [a; b; c; d; e] 6 in
  list_tasks (Some "completed") (mkSt me quiet) = (Return [b; d], mkSt me quiet).
Proof. reflexivity. Qed.

(** C8. When the save step fails, whichever way (the file cannot be
    opened for writing, or the writing fails after the open has emptied the
    file, as on a full disk), each mutating call raises the OSError to its
    caller and the manager keeps the change already made, with no roll back:
    after add_task the new task, with the old next_id as its id, is at the
    end of the list and next_id has grown by one; after complete_task of a
    pending task the task in the list has the status "completed" and
    completed_at stamped; after delete_task of an existing task the task is
    gone from the list. The file is what the failed write left of it. *)
Theorem save_failure_keeps_mutation (me : TaskManager.t) (w : World)
    (fate : write_fate) (later : list write_fate) :
  faults w = fate :: later →
  fails fate = true →
  let w' := mkWorld (left_by fate (filename me) (files w)) (stdout w) later in
  (∀ title description now,
     ∃ task me',
       add_task title description now (mkSt me w) = (Raise OSError, mkSt me' w') ∧
       filename me' = filename me ∧
       tasks me' = tasks me ++ [task] ∧
       next_id me' = next_id me + 1 ∧
       task = Task.init title description (next_id me) now ∧
       Task.id task = next_id me ∧ Task.title task = title ∧
       Task.description task = description ∧ Task.status task = "pending" ∧
       Task.created_at task = now ∧ Task.completed_at task = None) ∧
  (∀ task_id now task,
     fst (get_task task_id (mkSt me w)) = Return (Some task) →
     Task.status task = "pending" →
     ∃ place completed me',
       find_task (tasks me) task_id = Some (place, task) ∧
       complete_task task_id now (mkSt me w) = (Raise OSError, mkSt me' w') ∧
       filename me' = filename me ∧
       tasks me' = <[place := completed]> (tasks me) ∧
       tasks me' !! place = Some completed ∧
       next_id me' = next_id me ∧
       completed = Task.complete now task ∧
       Task.status completed = "completed" ∧
       Task.completed_at completed = Some now ∧
       Task.id completed = Task.id task ∧ Task.title completed = Task.title task ∧
       Task.description completed = Task.description task ∧
       Task.created_at completed = Task.created_at task ∧
       fst (get_task task_id (mkSt me' w')) = Return (Some completed)) ∧
  (∀ task_id task,
     fst (get_task task_id (mkSt me w)) = Return (Some task) →
     ∃ place me',
       find_task (tasks me) task_id = Some (place, task) ∧
       delete_task task_id (mkSt me w) = (Raise OSError, mkSt me' w') ∧
       filename me' = filename me ∧
       tasks me' = delete place (tasks me) ∧
       S (length (tasks me')) = length (tasks me) ∧
       next_id me' = next_id me).
Proof.
  intros Hfault Hfate w'. subst w'. split_and!.
  - intros title description now.
    exists (Task.init title description (next_id me) now),
           (TaskManager.mk (filename me)
              (tasks me ++ [Task.init title description (next_id me) now]) (next_id me + 1)).
    split_and!; [|reflexivity..].
    unfold add_task, mbind, M_bind, bind, get_self, set_tasks, set_next_id, mret, M_ret, ret.
    simpl. by rewrite (save_tasks_fails _ _ fate later).
  - intros task_id now task [place Hf]%get_task_found Hst.
    destruct (find_task_lookup _ _ _ _ Hf) as [Hl _].
    exists place, (Task.complete now task),
           (TaskManager.mk (filename me)
              (<[place := Task.complete now task]> (tasks me)) (next_id me)).
    split_and!; try done.
    + unfold complete_task, mbind, M_bind, bind, get_self, set_tasks, mret, M_ret, ret.
      simpl. rewrite Hf, Hst. simpl. by rewrite (save_tasks_fails _ _ fate later).
    + simpl. apply list_lookup_insert_eq. by eapply lookup_lt_Some.
    + rewrite get_task_eq. simpl. by rewrite (find_task_complete _ _ _ _ now Hf).
  - intros task_id task [place Hf]%get_task_found.
    destruct (find_task_lookup _ _ _ _ Hf) as [Hl _].
    exists place, (TaskManager.mk (filename me) (delete place (tasks me)) (next_id me)).
    split_and!; [done| |reflexivity|reflexivity| |done].
    + unfold delete_task, mbind, M_bind, bind, get_self, set_tasks, mret, M_ret, ret.
      simpl. rewrite Hf. simpl. by rewrite (save_tasks_fails _ _ fate later).
    + simpl. rewrite length_delete by eauto. apply lookup_lt_Some in Hl. lia.
Qed.

Lemma save_failure_keeps_mutation_witness :
  let a := Task.init "a" "" 1 "t1" in
  let b := Task.init "b" "" 2 "t2" in
  let me := TaskManager.mk "tasks.json" [a; b] 3 in
  let full := DumpFails "Expecting value: line 1 column 1 (char 0)" in
  let w := mkWorld {[ "tasks.json" := Document (to_json me) ]} [] [full] in
  let w' := mkWorld {[ "tasks.json" := Malformed "Expecting value: line 1 column 1 (char 0)" ]}
                    [] [] in
  add_task "c" "" "t3" (mkSt me w)
    = (Raise OSError, mkSt (TaskManager.mk "tasks.json" [a; b; Task.init "c" "" 3 "t3"] 4) w') ∧
  complete_task 2 "t4" (mkSt me w)
    = (Raise OSError, mkSt (TaskManager.mk "tasks.json" [a; Task.complete "t4" b] 3) w') ∧
  delete_task 1 (mkSt me w)
    = (Raise OSError, mkSt (TaskManager.mk "tasks.json" [b] 3) w').
Proof.
  intros a b me full w w'.
  destruct (save_failure_keeps_mutation me w full [] eq_refl eq_refl)
    as (Hadd & Hcomplete & Hdelete).
  assert (Hw : mkWorld (left_by full (filename me) (files w)) (stdout w) [] = w').
  { reflexivity. }
  rewrite Hw in Hadd, Hcomplete, Hdelete.
  split_and!.
  - destruct (Hadd "c" "" "t3") as (task & [fn ts n] & Hrun & Hfn & Hts & Hn & -> & _).
    simpl in Hfn, Hts, Hn. subst fn ts n. exact Hrun.
  - destruct (Hcomplete 2 "t4" b)
      as (place & completed & [fn ts n] & Hfind & Hrun & Hfn & Hts & _ & Hn & -> & _);
      [reflexivity|reflexivity|].
    vm_compute in Hfind. injection Hfind as <-.
    simpl in Hfn, Hts, Hn. subst fn ts n. exact Hrun.
  - destruct (Hdelete 1 a) as (place & [fn ts n] & Hfind & Hrun & Hfn & Hts & _ & Hn);
      [reflexivity|].
    vm_compute in Hfind. injection Hfind as <-.
    simpl in Hfn, Hts, Hn. subst fn ts n. exact Hrun.
Defined.

(** The same when the file could not be opened: the file is untouched. *)
Example save_failure_open :
  let a := Task.init "a" "" 1 "t1" in
  let me := TaskManager.mk "tasks.json" [a] 2 in
  let w := mkWorld {[ "tasks.json" := Document (to_json me) ]} [] [OpenFails] in
  complete_task 1 "t2" (mkSt me w)
  = (Raise OSError,
     mkSt (TaskManager.mk "tasks.json" [Task.complete "t2" a] 2)
          (mkWorld (files w) [] [])).
Proof. reflexivity. Qed.

(** C9. list_tasks, get_task and get_statistics leave the state they ran
    in as it was: the manager (the list, every task, next_id) and the world
    (so no file is written, and nothing is printed). They return, too. *)
Theorem read_only_calls_frame (st : St) (status : option string) (task_id : Z) :
  (∃ result, list_tasks status st = (Return result, st)) ∧
  (∃ found, get_task task_id st = (Return found, st)) ∧
  (∃ stats, get_statistics st = (Return stats, st)).
Proof.
  split_and!.
  - unfold list_tasks, mbind, M_bind, bind, get_self, mret, M_ret, ret.
    destruct status as [wanted|]; [|eauto]. destruct (String.eqb wanted ""); eauto.
  - eexists. reflexivity.
  - eexists. reflexivity.
Qed.

(** ** Ids *)

(** A call never lowers [next_id]; an [add_task] that returns gives the
    task the [next_id] it found and leaves the next one. *)
Lemma exec_next_id o st :
  next_id (self st) ≤ next_id (self (snd (exec o st))) ∧
  ∀ task, fst (exec o st) = Return (VTask task) →
          Task.id task = next_id (self st) ∧
          next_id (self (snd (exec o st))) = next_id (self st) + 1.
Proof.
  destruct st as [me w]. rewrite exec_self.
  destruct o as [ti de now|task_id now|task_id].
  - rewrite add_task_self. simpl. split; [lia|].
    open_call. destruct (faults w) as [|[| |msg] later]; simpl; intros task [= <-]; done.
  - rewrite complete_task_self. split.
    + destruct (find_task (tasks me) task_id) as [[place task]|]; [|done].
      by destruct (negb _).
    + open_call. destruct (find_task (tasks me) task_id) as [[place task]|]; [|done].
      destruct (negb _); [|done]. simpl. by destruct (faults w) as [|[| |msg] later].
  - rewrite delete_task_self. split.
    + by destruct (find_task (tasks me) task_id) as [[place task]|].
    + open_call. destruct (find_task (tasks me) task_id) as [[place task]|]; [|done].
      simpl. by destruct (faults w) as [|[| |msg] later].
Qed.

Lemma run_assigned_ids ops st :
  Forall (λ i, next_id (self st) ≤ i) (assigned_ids (fst (run ops st))) ∧
  StronglySorted Z.lt (assigned_ids (fst (run ops st))).
Proof.
  revert st. induction ops as [|o ops IH]; intros st; simpl.
  - split; constructor.
  - destruct (exec_next_id o st) as [Hle Hadd].
    destruct (exec o st) as [r st'] eqn:Hex. simpl in Hle, Hadd.
    destruct (IH st') as [Hlow Hsorted].
    destruct (run ops st') as [rs st'']. simpl in *.
    assert (Hlow' : Forall (λ i, next_id (self st) ≤ i) (assigned_ids rs)).
    { eapply Forall_impl; [exact Hlow|]. simpl. intros; lia. }
    destruct r as [[task|b]|e|]; simpl; try done.
    destruct (Hadd task eq_refl) as [Hid Hnext]. split.
    + constructor; [lia | done].
    + constructor; [done|].
      eapply Forall_impl; [exact Hlow|]. simpl. intros; lia.
Qed.

Lemma reachable_run ops file w :
  reachable (self (snd (run ops (mkSt (empty_store file) w)))).
Proof.
  assert (Hgen : ∀ st, reachable (self st) → reachable (self (snd (run ops st)))).
  { induction ops as [|o ops IH]; intros st Hr; simpl; [done|].
    destruct (exec o st) as [r st'] eqn:Hex.
    specialize (IH st'). destruct (run ops st') as [rs st'']. simpl in *.
    apply IH. destruct st as [me w']. by eapply reachable_step. }
  apply Hgen. constructor.
Qed.

(** C4. The ids add_task gives are strictly increasing along every run
    from the empty store, whatever calls lie between the additions, so no id
    is given twice. In particular after three additions and delete_task(2)
    the store lists the ids 1 and 3, in that order, and the next addition
    gets the id 4. *)
Theorem assigned_ids_increasing (ops : list op) (file : string) (w : World) :
  let ids := assigned_ids (fst (run ops (mkSt (empty_store file) w))) in
  StronglySorted Z.lt ids ∧ NoDup ids ∧ Forall (λ i, 1 ≤ i) ids ∧
  let before := [AddTask "a" "" "t1"; AddTask "b" "" "t2"; AddTask "c" "" "t3";
                 DeleteTask 2] in
  let st := snd (run before (mkSt (empty_store file) quiet)) in
  (∃ listed, list_tasks None st = (Return listed, st) ∧ Task.id <$> listed = [1; 3]) ∧
  assigned_ids (fst (run [AddTask "d" "" "t4"] st)) = [4].
Proof.
  intros ids. destruct (run_assigned_ids ops (mkSt (empty_store file) w)) as [Hlow Hs].
  split_and!; [done | by apply StronglySorted_lt_NoDup | done |].
  intros before st. split; [|reflexivity].
  eexists. split; reflexivity.
Qed.

(** C5. In every store reached from the empty store by add_task,
    complete_task and delete_task, every task has completed_at set (not
    None) exactly when its status is "completed". *)
Theorem completed_at_iff_completed (me : TaskManager.t) :
  reachable me →
  ∀ task, task ∈ tasks me →
          Task.completed_at task ≠ None ↔ Task.status task = "completed".
Proof.
  intros Hr task Hin. apply reachable_coupled in Hr.
  rewrite Forall_forall in Hr. by apply Hr.
Qed.

Lemma completed_at_iff_completed_witness :
  let ops := [AddTask "a" "" "t1"; AddTask "b" "" "t2"; CompleteTask 2 "t3";
              DeleteTask 1; AddTask "c" "" "t4"] in
  let me := self (snd (run ops (mkSt (empty_store "tasks.json") quiet))) in
  Forall (λ task, Task.completed_at task ≠ None ↔ Task.status task = "completed")
         (tasks me).
Proof.
  intros ops me. apply Forall_forall.
  apply (completed_at_iff_completed me).
  apply (reachable_run ops "tasks.json" quiet).
Defined.

(** C10. In every store reached from the empty store by add_task,
    complete_task and delete_task, the list of tasks is in strictly
    increasing order of id and every id is below next_id; so the ids are
    pairwise distinct, and what list_tasks returns, with or without a
    filter, is in increasing order of id. *)
Theorem ids_sorted_below_next_id (me : TaskManager.t) :
  reachable me →
  StronglySorted Z.lt (Task.id <$> tasks me) ∧
  Forall (λ task, Task.id task < next_id me) (tasks me) ∧
  NoDup (Task.id <$> tasks me) ∧
  ∀ w status, ∃ listed,
    list_tasks status (mkSt me w) = (Return listed, mkSt me w) ∧
    sublist listed (tasks me) ∧
    StronglySorted Z.lt (Task.id <$> listed).
Proof.
  intros [Hs Hb]%reachable_ids_in_order. split_and!; [done | done | |].
  - by apply StronglySorted_lt_NoDup.
  - intros w status.
    assert (Hsub : ∀ listed, sublist listed (tasks me) →
                             StronglySorted Z.lt (Task.id <$> listed)).
    { intros listed Hl. eapply StronglySorted_of_sublist; [|exact Hs].
      by apply fmap_sublist. }
    unfold list_tasks, mbind, M_bind, bind, get_self, mret, M_ret, ret. simpl.
    destruct status as [wanted|].
    + destruct (String.eqb wanted "").
      * exists (tasks me). split_and!; [done | done | by apply Hsub].
      * eexists. split_and!; [done | apply sublist_filter | apply Hsub, sublist_filter].
    + exists (tasks me). split_and!; [done | done | by apply Hsub].
Qed.

Lemma ids_sorted_below_next_id_witness :
  let ops := [AddTask "a" "" "t1"; AddTask "b" "" "t2"; AddTask "c" "" "t3";
              DeleteTask 2; CompleteTask 3 "t4"; AddTask "d" "" "t5"] in
  let me := self (snd (run ops (mkSt (empty_store "tasks.json") quiet))) in
  StronglySorted Z.lt (Task.id <$> tasks me) ∧
  Forall (λ task, Task.id task < next_id me) (tasks me) ∧
  NoDup (Task.id <$> tasks me) ∧
  ∀ w status, ∃ listed,
    list_tasks status (mkSt me w) = (Return listed, mkSt me w) ∧
    sublist listed (tasks me) ∧
    StronglySorted Z.lt (Task.id <$> listed).
Proof.
  intros ops me. apply (ids_sorted_below_next_id me).
  apply (reachable_run ops "tasks.json" quiet).
Defined.

(** ** Further properties of the store *)

Lemma length_filter_split {A} (P : A → Prop) `{!∀ x, Decision (P x)} (l : list A) :
  (length (filter P l) + length (filter (λ x, ¬ P x) l) = length l)%nat.
Proof. rewrite <- length_app. by rewrite filter_app_complement. Qed.

Lemma filter_ext_Forall {A} (P1 P2 : A → Prop)
    `{!∀ x, Decision (P1 x), !∀ x, Decision (P2 x)} (l : list A) :
  Forall (λ x, P1 x ↔ P2 x) l → filter P1 l = filter P2 l.
Proof.
  induction 1 as [|x l Hx _ IH]; [done|].
  destruct (decide (P1 x)).
  - rewrite !filter_cons_True by tauto. by rewrite IH.
  - rewrite !filter_cons_False by tauto. by rewrite IH.
Qed.

(** X1. get_statistics, for every store: it returns, changing nothing, a
    dict with the keys total, completed and pending and no other; total is
    the number of tasks, completed the number of tasks whose status is
    "completed", and pending, computed as their difference, is the number
    of tasks whose status is anything else; so total = completed + pending
    and no count is negative. *)
Theorem get_statistics_counts (st : St) :
  ∃ stats total completed pending,
    get_statistics st = (Return stats, st) ∧
    stats !! "total" = Some total ∧
    stats !! "completed" = Some completed ∧
    stats !! "pending" = Some pending ∧
    dom stats = {[ "total"; "completed"; "pending" ]} ∧
    total = Z.of_nat (length (tasks (self st))) ∧
    completed = Z.of_nat (length (filter (λ task, Task.status task = "completed")
                                         (tasks (self st)))) ∧
    pending = Z.of_nat (length (filter (λ task, Task.status task ≠ "completed")
                                       (tasks (self st)))) ∧
    total = completed + pending ∧ 0 ≤ completed ∧ 0 ≤ pending.
Proof.
  pose proof (length_filter_split (λ task, Task.status task = "completed")
                (tasks (self st))) as Hsplit.
  cbv beta in Hsplit.
  eexists _, _, _, _. split; [reflexivity|].
  split_and!; try reflexivity; lia.
Qed.

Lemma exec_status_set o me w :
  Forall status_set (tasks me) →
  Forall status_set (tasks (self (snd (exec o (mkSt me w))))).
Proof.
  intros Hall. rewrite exec_self. destruct o as [ti de now|task_id now|task_id].
  - rewrite add_task_self; simpl. apply Forall_app. split; [done|].
    constructor; [by left | constructor].
  - rewrite complete_task_self.
    destruct (find_task (tasks me) task_id) as [[place task]|]; [|done].
    destruct (negb _); [|done]. simpl.
    apply Forall_insert; [done | by right].
  - rewrite delete_task_self.
    destruct (find_task (tasks me) task_id) as [[place task]|]; [|done].
    simpl. by apply Forall_delete.
Qed.

Lemma reachable_status_set me : reachable me → Forall status_set (tasks me).
Proof.
  induction 1 as [file|me w o r st' _ IH Hex].
  - constructor.
  - replace st' with (snd (exec o (mkSt me w))) by (by rewrite Hex).
    by apply exec_status_set.
Qed.

(** X2. In every store reached from the empty store by add_task,
    complete_task and delete_task every task has the status "pending" or
    "completed", and the pending count of get_statistics is the number of
    tasks whose status is "pending". *)
Theorem reachable_pending_count (me : TaskManager.t) :
  reachable me →
  Forall (λ task, Task.status task = "pending" ∨ Task.status task = "completed")
         (tasks me) ∧
  ∀ w, ∃ stats,
    get_statistics (mkSt me w) = (Return stats, mkSt me w) ∧
    stats !! "pending"
      = Some (Z.of_nat (length (filter (λ task, Task.status task = "pending") (tasks me)))).
Proof.
  intros Hall%reachable_status_set. split; [done|]. intros w.
  eexists. split; [reflexivity|].
  change (Some (Z.of_nat (length (tasks me))
                - Z.of_nat (length (filter (λ task, Task.status task = "completed") (tasks me))))
          = Some (Z.of_nat (length (filter (λ task, Task.status task = "pending") (tasks me))))).
  f_equal.
  pose proof (length_filter_split (λ task, Task.status task = "completed") (tasks me)).
  assert (filter (λ task, Task.status task ≠ "completed") (tasks me)
          = filter (λ task, Task.status task = "pending") (tasks me)) as <-; [|lia].
  apply filter_ext_Forall. eapply Forall_impl; [exact Hall|].
  intros task [Hp|Hc]; simpl; rewrite ?Hp, ?Hc; split; done.
Qed.

Lemma reachable_pending_count_witness :
  let ops := [AddTask "a" "" "t1"; AddTask "b" "" "t2"; CompleteTask 1 "t3"] in
  let me := self (snd (run ops (mkSt (empty_store "tasks.json") quiet))) in
  Forall (λ task, Task.status task = "pending" ∨ Task.status task = "completed")
         (tasks me) ∧
  ∀ w, ∃ stats,
    get_statistics (mkSt me w) = (Return stats, mkSt me w) ∧
    stats !! "pending"
      = Some (Z.of_nat (length (filter (λ task, Task.status task = "pending") (tasks me)))).
Proof.
  intros ops me. apply (reachable_pending_count me).
  apply (reachable_run ops "tasks.json" quiet).
Defined.

Section ListFacts.

Context {A : Type}.
Implicit Types (l : list A) (x y a : A) (i : nat).

Lemma elem_of_insert_inv l i x y : y ∈ <[i:=x]> l → y = x ∨ y ∈ l.
Proof.
  revert i. induction l as [|z l IH]; intros i Hin; [by right|].
  destruct i as [|i]; simpl in Hin; apply elem_of_cons in Hin as [->|Hin].
  - by left.
  - right. by apply list_elem_of_further.
  - right. apply list_elem_of_here.
  - destruct (IH i Hin) as [->|?]; [by left|right]. by apply list_elem_of_further.
Qed.

Lemma elem_of_insert_other l i x y a :
  l !! i = Some a → y ∈ l → y ≠ a → y ∈ <[i:=x]> l.
Proof.
  revert i. induction l as [|z l IH]; intros i Hl Hin Hne; [done|].
  apply elem_of_cons in Hin as [->|Hin]; destruct i as [|i]; simpl in *.
  - by injection Hl as ->.
  - apply list_elem_of_here.
  - by apply list_elem_of_further.
  - apply list_elem_of_further. by apply IH.
Qed.

Lemma elem_of_delete_other l i y a :
  l !! i = Some a → y ∈ l → y ≠ a → y ∈ delete i l.
Proof.
  revert i. induction l as [|z l IH]; intros i Hl Hin Hne; [done|].
  apply elem_of_cons in Hin as [->|Hin]; destruct i as [|i]; simpl in *.
  - by injection Hl as ->.
  - apply list_elem_of_here.
  - done.
  - apply list_elem_of_further. by apply IH.
Qed.

End ListFacts.

(** The calls that change the store, when the write succeeds. *)
Lemma add_task_returns me w title description now :
  next_write_ok w →
  let task := Task.init title description (next_id me) now in
  let me' := TaskManager.mk (filename me) (tasks me ++ [task]) (next_id me + 1) in
  add_task title description now (mkSt me w) = (Return task, mkSt me' (saved me' w)).
Proof.
  intros Hok task me'.
  unfold add_task, mbind, M_bind, bind, get_self, set_tasks, set_next_id, mret, M_ret, ret.
  simpl. by rewrite save_tasks_ok.
Qed.

Lemma complete_task_returns me w task_id now place task :
  find_task (tasks me) task_id = Some (place, task) →
  Task.status task ≠ "completed" →
  next_write_ok w →
  let me' := TaskManager.mk (filename me)
               (<[place := Task.complete now task]> (tasks me)) (next_id me) in
  complete_task task_id now (mkSt me w) = (Return true, mkSt me' (saved me' w)).
Proof.
  intros Hf Hst Hok me'.
  unfold complete_task, mbind, M_bind, bind, get_self, set_tasks, mret, M_ret, ret.
  simpl. rewrite Hf. rewrite (proj2 (String.eqb_neq _ _) Hst). simpl.
  by rewrite save_tasks_ok.
Qed.

Lemma complete_task_refuses me w task_id now :
  match find_task (tasks me) task_id with
  | Some (_, task) => Task.status task = "completed"
  | None => True
  end →
  complete_task task_id now (mkSt me w) = (Return false, mkSt me w).
Proof.
  intros Hf. open_call.
  destruct (find_task (tasks me) task_id) as [[place task]|]; [|done].
  by rewrite Hf.
Qed.

Lemma delete_task_returns me w task_id place task :
  find_task (tasks me) task_id = Some (place, task) →
  next_write_ok w →
  let me' := TaskManager.mk (filename me) (delete place (tasks me)) (next_id me) in
  delete_task task_id (mkSt me w) = (Return true, mkSt me' (saved me' w)).
Proof.
  intros Hf Hok me'.
  unfold delete_task, mbind, M_bind, bind, get_self, set_tasks, mret, M_ret, ret.
  simpl. rewrite Hf. simpl. by rewrite save_tasks_ok.
Qed.

Lemma delete_task_refuses me w task_id :
  find_task (tasks me) task_id = None →
  delete_task task_id (mkSt me w) = (Return false, mkSt me w).
Proof. intros Hf. open_call. by rewrite Hf. Qed.

Lemma find_task_app ts task task_id :
  find_task (ts ++ [task]) task_id
  = match find_task ts task_id with
    | Some found => Some found
    | None => if Task.id task =? task_id then Some (length ts, task) else None
    end.
Proof.
  induction ts as [|t0 ts IH]; simpl.
  - by destruct (Task.id task =? task_id).
  - destruct (Task.id t0 =? task_id); [done|]. rewrite IH.
    destruct (find_task ts task_id) as [[p t1]|]; [done|].
    by destruct (Task.id task =? task_id).
Qed.

Lemma find_task_member ts task :
  NoDup (Task.id <$> ts) → task ∈ ts →
  ∃ place, find_task ts (Task.id task) = Some (place, task).
Proof.
  induction ts as [|t0 ts IH]; intros Hnd Hin; [by apply elem_of_nil in Hin|].
  rewrite fmap_cons in Hnd. apply NoDup_cons in Hnd as [Hfresh Hnd]. simpl.
  apply elem_of_cons in Hin as [->|Hin].
  - rewrite Z.eqb_refl. eauto.
  - destruct (Z.eqb_spec (Task.id t0) (Task.id task)) as [Heq|Hne].
    + destruct Hfresh. rewrite Heq. by apply list_elem_of_fmap_2.
    + destruct (IH Hnd Hin) as [place ->]. simpl. eauto.
Qed.

Lemma find_task_delete ts task_id place task :
  NoDup (Task.id <$> ts) →
  find_task ts task_id = Some (place, task) →
  find_task (delete place ts) task_id = None.
Proof.
  revert place. induction ts as [|t0 ts IH]; intros place Hnd Hf; [done|].
  rewrite fmap_cons in Hnd. apply NoDup_cons in Hnd as [Hfresh Hnd]. simpl in Hf.
  destruct (Z.eqb_spec (Task.id t0) task_id) as [Heq|Hne].
  - injection Hf as <- <-. simpl. apply find_task_None.
    apply Forall_forall. intros t Hin Hid. destruct Hfresh.
    rewrite Heq, <- Hid. by apply list_elem_of_fmap_2.
  - destruct (find_task ts task_id) as [[p t1]|] eqn:E; simpl in Hf; [|done].
    injection Hf as <- <-. simpl.
    rewrite (proj2 (Z.eqb_neq _ _) Hne). by rewrite (IH p).
Qed.

(** X3. get_task(task_id), for every store: it changes nothing; the task
    it returns is in the list, has the id, and is the first in the list that
    has it; it returns None exactly when no task of the list has the id. *)
Theorem get_task_first_match (me : TaskManager.t) (w : World) (task_id : Z) :
  ∃ found,
    get_task task_id (mkSt me w) = (Return found, mkSt me w) ∧
    match found with
    | Some task =>
        ∃ place, tasks me !! place = Some task ∧ Task.id task = task_id ∧
                 ∀ j earlier, (j < place)%nat → tasks me !! j = Some earlier →
                              Task.id earlier ≠ task_id
    | None => ∀ task, task ∈ tasks me → Task.id task ≠ task_id
    end.
Proof.
  rewrite get_task_eq. eexists. split; [done|].
  destruct (find_task (tasks me) task_id) as [[place task]|] eqn:Hf; simpl.
  - exists place. destruct (find_task_lookup _ _ _ _ Hf) as [Hl Hid].
    split_and!; [done|done|]. by apply (find_task_first _ _ _ _ Hf).
  - apply find_task_None in Hf. by rewrite Forall_forall in Hf.
Qed.

(** X4. In a store reached from the empty store, get_task finds every
    task of the list by its id: the ids are distinct, so no task hides
    another. *)
Theorem get_task_finds_member (me : TaskManager.t) (w : World) (task : Task.t) :
  reachable me → task ∈ tasks me →
  get_task (Task.id task) (mkSt me w) = (Return (Some task), mkSt me w).
Proof.
  intros [Hs _]%reachable_ids_in_order Hin. rewrite get_task_eq.
  destruct (find_task_member (tasks me) task) as [place ->];
    [by apply StronglySorted_lt_NoDup | done | done].
Qed.

Lemma get_task_finds_member_witness :
  let ops := [AddTask "a" "" "t1"; AddTask "b" "" "t2"; DeleteTask 1; AddTask "c" "" "t3"] in
  let me := self (snd (run ops (mkSt (empty_store "tasks.json") quiet))) in
  get_task 3 (mkSt me quiet) = (Return (Some (Task.init "c" "" 3 "t3")), mkSt me quiet).
Proof.
  intros ops me.
  apply (get_task_finds_member me quiet (Task.init "c" "" 3 "t3")).
  - apply (reachable_run ops "tasks.json" quiet).
  - vm_compute. apply list_elem_of_further, list_elem_of_here.
Defined.

(** X5. add_task then get_task. When every id in the store is below
    next_id and the write succeeds, get_task of the id of the task add_task
    returned gives that task, and get_task of any other id gives what it
    gave before the addition. *)
Theorem add_task_then_get_task (me : TaskManager.t) (w : World)
    (title description now : string) :
  Forall (λ task, Task.id task < next_id me) (tasks me) →
  next_write_ok w →
  ∃ task st',
    add_task title description now (mkSt me w) = (Return task, st') ∧
    get_task (Task.id task) st' = (Return (Some task), st') ∧
    ∀ other, other ≠ Task.id task →
             fst (get_task other st') = fst (get_task other (mkSt me w)).
Proof.
  intros Hbelow Hok.
  eexists _, _. split; [by apply add_task_returns|].
  rewrite !get_task_eq. simpl. split.
  - rewrite find_task_app.
    assert (find_task (tasks me) (next_id me) = None) as ->.
    { apply find_task_None. eapply Forall_impl; [exact Hbelow|]. simpl. lia. }
    simpl. by rewrite Z.eqb_refl.
  - intros other Hne. rewrite find_task_app.
    destruct (find_task (tasks me) other) as [[p t1]|]; [done|].
    simpl. by rewrite (proj2 (Z.eqb_neq _ _)).
Qed.

Lemma add_task_then_get_task_witness :
  let me := TaskManager.mk "tasks.json" [Task.init "a" "" 1 "t1"; Task.init "b" "" 4 "t2"] 5 in
  ∃ task st',
    add_task "c" "" "t3" (mkSt me quiet) = (Return task, st') ∧
    get_task (Task.id task) st' = (Return (Some task), st') ∧
    ∀ other, other ≠ Task.id task →
             fst (get_task other st') = fst (get_task other (mkSt me quiet)).
Proof.
  intros me. apply (add_task_then_get_task me quiet "c" "" "t3").
  - repeat constructor.
  - discriminate.
Defined.

(** X6. delete_task(task_id), for every store. When get_task finds no
    task with the id it returns False and changes nothing: no file is
    written. When it finds one (and the write succeeds) it returns True, the
    list is the old one without the task found, one shorter and in the same
    order, next_id is as before, and the file holds the new store. When the
    ids of the store are distinct, get_task of the id then gives None and a
    second delete_task of it returns False. *)
Theorem delete_task_cases (me : TaskManager.t) (w : World) (task_id : Z) :
  let st := mkSt me w in
  (fst (get_task task_id st) = Return None →
     delete_task task_id st = (Return false, st)) ∧
  (∀ task, fst (get_task task_id st) = Return (Some task) →
     next_write_ok w →
     ∃ place me',
       find_task (tasks me) task_id = Some (place, task) ∧
       me' = TaskManager.mk (filename me) (delete place (tasks me)) (next_id me) ∧
       delete_task task_id st = (Return true, mkSt me' (saved me' w)) ∧
       files (saved me' w) !! filename me = Some (Document (to_json me')) ∧
       S (length (tasks me')) = length (tasks me) ∧
       sublist (tasks me') (tasks me) ∧
       (NoDup (Task.id <$> tasks me) →
          get_task task_id (mkSt me' (saved me' w))
            = (Return None, mkSt me' (saved me' w)) ∧
          delete_task task_id (mkSt me' (saved me' w))
            = (Return false, mkSt me' (saved me' w)))).
Proof.
  intros st. subst st. split.
  - intros Hnone%get_task_missing. by apply delete_task_refuses.
  - intros task [place Hf]%get_task_found Hok.
    destruct (find_task_lookup _ _ _ _ Hf) as [Hl _].
    eexists place, _. split_and!; [done | reflexivity | | | | |].
    + by apply (delete_task_returns me w task_id place task).
    + unfold saved; simpl. apply lookup_insert_eq.
    + simpl. rewrite length_delete by eauto.
      apply lookup_lt_Some in Hl. lia.
    + apply sublist_delete.
    + intros Hnd. pose proof (find_task_delete _ _ _ _ Hnd Hf) as Hgone. split.
      * rewrite get_task_eq. simpl. by rewrite Hgone.
      * by apply delete_task_refuses.
Qed.

Lemma delete_task_cases_witness :
  let a := Task.init "a" "" 1 "t1" in
  let b := Task.init "b" "" 2 "t2" in
  let c := Task.init "c" "" 3 "t3" in
  let me := TaskManager.mk "tasks.json" [a; b; c] 4 in
  let me' := TaskManager.mk "tasks.json" [a; c] 4 in
  delete_task 9 (mkSt me quiet) = (Return false, mkSt me quiet) ∧
  delete_task 2 (mkSt me quiet) = (Return true, mkSt me' (saved me' quiet)) ∧
  delete_task 2 (mkSt me' (saved me' quiet)) = (Return false, mkSt me' (saved me' quiet)).
Proof.
  intros a b c me me'.
  destruct (delete_task_cases me quiet 9) as [Hmissing _].
  destruct (delete_task_cases me quiet 2) as [_ Hfound].
  destruct (Hfound b) as (place & me'' & Hfind & -> & Hrun & _ & _ & _ & Hagain);
    [reflexivity | discriminate |].
  vm_compute in Hfind. injection Hfind as <-.
  split_and!.
  - apply Hmissing. reflexivity.
  - exact Hrun.
  - apply Hagain. compute_done.
Defined.

(** X7. No call rewrites what a task was created with. After add_task,
    complete_task or delete_task on any store, every task of the list either
    is the task the call has just added, with the old next_id as its id, or
    has the id, title, description and created_at of a task that was in the
    list before. *)
Theorem exec_keeps_creation_fields (o : op) (me : TaskManager.t) (w : World) (after : Task.t) :
  after ∈ tasks (self (snd (exec o (mkSt me w)))) →
  (∃ before, before ∈ tasks me ∧
             Task.id before = Task.id after ∧
             Task.title before = Task.title after ∧
             Task.description before = Task.description after ∧
             Task.created_at before = Task.created_at after) ∨
  (∃ title description now,
     o = AddTask title description now ∧
     after = Task.init title description (next_id me) now).
Proof.
  rewrite exec_self. destruct o as [ti de now|task_id now|task_id].
  - rewrite add_task_self. simpl. intros [Hin|Hin]%elem_of_app.
    + left. by exists after.
    + right. apply list_elem_of_singleton in Hin. eauto.
  - rewrite complete_task_self.
    destruct (find_task (tasks me) task_id) as [[place task]|] eqn:Hf;
      [|intros Hin; left; by exists after].
    destruct (negb _); [|intros Hin; left; by exists after]. simpl.
    intros [->|Hin]%elem_of_insert_inv; left.
    + exists task. split; [|done].
      apply find_task_lookup in Hf as [Hl _]. by eapply list_elem_of_lookup_2.
    + by exists after.
  - rewrite delete_task_self.
    destruct (find_task (tasks me) task_id) as [[place task]|];
      [|intros Hin; left; by exists after].
    simpl. intros Hin%list_elem_of_delete_inv. left. by exists after.
Qed.

Lemma exec_keeps_creation_fields_witness :
  let a := Task.init "a" "first" 1 "t1" in
  let me := TaskManager.mk "tasks.json" [a] 2 in
  (∃ before, before ∈ tasks me ∧
             Task.id before = 1 ∧ Task.title before = "a" ∧
             Task.description before = "first" ∧ Task.created_at before = "t1") ∨
  (∃ title description now,
     CompleteTask 1 "t2" = AddTask title description now ∧
     Task.complete "t2" a = Task.init title description (next_id me) now).
Proof.
  intros a me.
  apply (exec_keeps_creation_fields (CompleteTask 1 "t2") me quiet (Task.complete "t2" a)).
  vm_compute. apply list_elem_of_here.
Defined.

(** X8. A completed task is never changed again. If a task of the list
    has the status "completed", then after any call it is still in the
    list, with every field as it was (completed_at too), unless the call was
    delete_task of its id. *)
Theorem completed_task_stays (o : op) (me : TaskManager.t) (w : World) (task : Task.t) :
  task ∈ tasks me →
  Task.status task = "completed" →
  task ∈ tasks (self (snd (exec o (mkSt me w)))) ∨ o = DeleteTask (Task.id task).
Proof.
  intros Hin Hdone. rewrite exec_self. destruct o as [ti de now|task_id now|task_id].
  - left. rewrite add_task_self. simpl. apply elem_of_app. by left.
  - left. rewrite complete_task_self.
    destruct (find_task (tasks me) task_id) as [[place found]|] eqn:Hf; [|done].
    destruct (String.eqb_spec (Task.status found) "completed") as [Heq|Hne]; [done|].
    simpl. apply find_task_lookup in Hf as [Hl _].
    eapply elem_of_insert_other; [exact Hl | done | congruence].
  - rewrite delete_task_self.
    destruct (find_task (tasks me) task_id) as [[place found]|] eqn:Hf; [|by left].
    simpl. apply find_task_lookup in Hf as [Hl Hid].
    destruct (decide (Task.id task = task_id)) as [<-|Hne].
    + by right.
    + left. eapply elem_of_delete_other; [exact Hl | done | congruence].
Qed.

Lemma completed_task_stays_witness :
  let a := Task.complete "t3" (Task.init "a" "" 1 "t1") in
  let b := Task.init "b" "" 2 "t2" in
  let me := TaskManager.mk "tasks.json" [a; b] 3 in
  a ∈ tasks (self (snd (exec (CompleteTask 1 "t4") (mkSt me quiet)))) ∨
  CompleteTask 1 "t4" = DeleteTask 1.
Proof.
  intros a b me.
  apply (completed_task_stays (CompleteTask 1 "t4") me quiet a).
  - apply list_elem_of_here.
  - reflexivity.
Defined.

(** X9. What save_tasks writes keeps everything: two tasks with the same
    dict are the same task, and two stores with the same document have the
    same tasks and the same next_id. *)
Theorem to_json_keeps_store (me1 me2 : TaskManager.t) (task1 task2 : Task.t) :
  (Task.to_dict task1 = Task.to_dict task2 → task1 = task2) ∧
  (to_json me1 = to_json me2 → tasks me1 = tasks me2 ∧ next_id me1 = next_id me2).
Proof.
  split.
  - intros Heq. pose proof (from_dict_to_dict task1) as H1.
    rewrite Heq, from_dict_to_dict in H1. by injection H1.
  - intros Heq. split.
    + pose proof (subscript_to_json me1) as H1. rewrite Heq, subscript_to_json in H1.
      injection H1 as H1.
      pose proof (comprehension_to_dict (tasks me1)) as H2.
      rewrite <- H1, comprehension_to_dict in H2. injection H2 as H2.
      by apply (inj (fmap Some)) in H2.
    + pose proof (next_id_of_to_json me1) as H1.
      rewrite Heq, next_id_of_to_json in H1. by injection H1.
Qed.

Lemma to_json_keeps_store_witness :
  let me := TaskManager.mk "a.json" [Task.init "a" "" 1 "t1"] 2 in
  let me' := TaskManager.mk "b.json" [Task.init "a" "" 1 "t1"] 2 in
  tasks me = tasks me' ∧ next_id me = next_id me'.
Proof.
  intros me me'.
  apply (to_json_keeps_store me me' (Task.init "a" "" 1 "t1") (Task.init "a" "" 1 "t1")).
  reflexivity.
Defined.

(** X10. What the three mutating calls never do, on any store: they do not
    print, do not change the manager's file name, do not touch any file but
    the manager's own, and end by returning or by raising OSError, nothing
    else. A call that returns False has changed nothing at all. *)
Theorem exec_frame (o : op) (me : TaskManager.t) (w : World) :
  let r := fst (exec o (mkSt me w)) in
  let st' := snd (exec o (mkSt me w)) in
  filename (self st') = filename me ∧
  stdout (world st') = stdout w ∧
  (∀ path, path ≠ filename me → files (world st') !! path = files w !! path) ∧
  ((∃ v, r = Return v) ∨ r = Raise OSError) ∧
  (r = Return (VBool false) → st' = mkSt me w).
Proof.
  destruct o as [ti de now|task_id now|task_id]; open_call.
  - destruct (faults w) as [|[| |msg] later]; simpl;
      (split_and!; [done | done | | eauto | done]);
      intros path Hne; by rewrite ?lookup_insert_ne.
  - destruct (find_task (tasks me) task_id) as [[place task]|]; simpl;
      [|split_and!; eauto].
    destruct (negb _); simpl; [|split_and!; eauto].
    destruct (faults w) as [|[| |msg] later]; simpl;
      (split_and!; [done | done | | eauto | done]);
      intros path Hne; by rewrite ?lookup_insert_ne.
  - destruct (find_task (tasks me) task_id) as [[place task]|]; simpl;
      [|split_and!; eauto].
    destruct (faults w) as [|[| |msg] later]; simpl;
      (split_and!; [done | done | | eauto | done]);
      intros path Hne; by rewrite ?lookup_insert_ne.
Qed.

(** ** Further properties of load_tasks *)

Lemma subscript_raises data key e :
  subscript data key = Raised e → e = TypeError ∨ e = KeyError key.
Proof.
  destruct data as [| | | | | |members]; simpl; try (intros [= <-]; by left).
  destruct (members !! key); [done|]. intros [= <-]. by right.
Qed.

Lemma from_dict_raises v e :
  Task.from_dict v = Raised e → load_caught e = true ∨ e = TypeError.
Proof.
  unfold Task.from_dict. intros Hr.
  repeat match type of Hr with
         | res_bind (subscript v ?k) _ = _ =>
             destruct (subscript v k) eqn:?; simpl in Hr
         end;
    try discriminate; injection Hr as <-;
    match goal with
    | H : subscript _ _ = Raised _ |- _ =>
        apply subscript_raises in H as [->| ->]; [by right | by left]
    end.
Qed.

Lemma comprehension_raises entries e :
  comprehension Task.from_dict entries = Raised e → load_caught e = true ∨ e = TypeError.
Proof.
  induction entries as [|v entries IH]; simpl; [done|].
  destruct (Task.from_dict v) as [r|e0] eqn:Hv; simpl.
  - destruct (comprehension Task.from_dict entries) as [rs|e1]; simpl; [done|].
    intros [= <-]. by apply IH.
  - intros [= <-]. by eapply from_dict_raises.
Qed.

Lemma load_body_raises data e :
  res_bind (res_bind (subscript data "tasks") iterate) (comprehension Task.from_dict)
    = Raised e →
  load_caught e = true ∨ e = TypeError.
Proof.
  destruct (subscript data "tasks") as [v|e0] eqn:Hs; simpl.
  - destruct (iterate v) as [entries|e1] eqn:Hi; simpl.
    + apply comprehension_raises.
    + intros [= <-]. right.
      destruct v; simpl in Hi; try discriminate; by injection Hi as <-.
  - intros [= <-]. apply subscript_raises in Hs as [->| ->]; [by right | by left].
Qed.

(** X11. What load_tasks never does, on any manager and any world. It
    keeps the manager's file name, writes no file and uses up no write. An
    exception that leaves it is never a JSONDecodeError or a KeyError, the
    two its except clause names, and leaves the manager and the world as
    they were. It prints nothing, or the one line of its except clause, and
    then it returns with the store empty and next_id 1. *)
Theorem load_tasks_outcomes (me : TaskManager.t) (w : World) :
  let r := fst (load_tasks (mkSt me w)) in
  let st' := snd (load_tasks (mkSt me w)) in
  filename (self st') = filename me ∧
  files (world st') = files w ∧
  faults (world st') = faults w ∧
  (∀ e, r = Raise e → load_caught e = false ∧ st' = mkSt me w) ∧
  (stdout (world st') = stdout w ∨
   ∃ e, load_caught e = true ∧ r = Return () ∧ st' = recovered me w e).
Proof.
  destruct (files w !! filename me) as [[msg|data| |]|] eqn:Hfile.
  - rewrite (load_tasks_Malformed _ _ _ Hfile). simpl.
    split_and!; try done. right. by exists (JSONDecodeError msg).
  - rewrite (load_tasks_Document _ _ _ Hfile).
    destruct (res_bind _ _) as [loaded|e] eqn:Hbody.
    + destruct (mapM id loaded) as [ts|]; [destruct (next_id_of data) as [n|]|];
        simpl; split_and!; try done; eauto.
    + destruct (load_body_raises data e Hbody) as [Hcaught| ->].
      * rewrite Hcaught. simpl. split_and!; try done; eauto.
      * simpl. split_and!; try done; [|eauto]. by intros e [= <-].
  - rewrite (load_tasks_unreadable _ _ Unreadable OSError Hfile) by (by left). simpl.
    split_and!; try done; [|eauto]. by intros e [= <-].
  - rewrite (load_tasks_unreadable _ _ Undecodable UnicodeDecodeError Hfile) by (by right). simpl.
    split_and!; try done; [|eauto]. by intros e [= <-].
  - rewrite (load_tasks_absent _ _ Hfile). simpl. split_and!; try done; eauto.
Qed.

Lemma from_dict_not_object v :
  match v with JObj _ => False | _ => True end →
  Task.from_dict v = Raised TypeError.
Proof. by destruct v. Qed.

Lemma comprehension_not_object good bad rest :
  Forall has_fields good →
  match bad with JObj _ => False | _ => True end →
  comprehension Task.from_dict (good ++ bad :: rest) = Raised TypeError.
Proof.
  intros Hgood Hbad. induction Hgood as [|v good Hv _ IH]; simpl.
  - by rewrite from_dict_not_object.
  - destruct (from_dict_has_fields v Hv) as [r ->]. simpl. by rewrite IH.
Qed.

Lemma iterate_no_task_list v :
  no_task_list v →
  res_bind (iterate v) (comprehension Task.from_dict) = Raised TypeError.
Proof.
  destruct v as [| | | |s|items|members]; simpl; try done.
  - destruct s as [|c s]; [done|]. intros _. reflexivity.
  - intros Hne. destruct (map_to_list members) as [|[k x] l] eqn:Hl.
    + by apply map_to_list_empty_iff in Hl.
    + reflexivity.
Qed.

Lemma load_body_ill_shaped data :
  ill_shaped (Document data) →
  res_bind (res_bind (subscript data "tasks") iterate) (comprehension Task.from_dict)
    = Raised TypeError.
Proof.
  intros Hill.
  inversion Hill as [d Htop|members v Hsome Hv|members good bad rest Hsome Hgood Hbad]; subst.
  - by destruct data.
  - unfold subscript. rewrite Hsome. simpl. by apply iterate_no_task_list.
  - unfold subscript. rewrite Hsome. simpl. by apply comprehension_not_object.
Qed.

Lemma unloadable_recovers me w content :
  files w !! filename me = Some content →
  unloadable content →
  ∃ e, load_caught e = true ∧ load_tasks (mkSt me w) = (Return (), recovered me w e).
Proof.
  intros Hfile Hcontent.
  destruct Hcontent as [msg|members Hnone|members good bad rest Hsome Hgood Hbad].
  - exists (JSONDecodeError msg). split; [done|]. by apply load_tasks_Malformed.
  - exists (KeyError "tasks"). split; [done|].
    rewrite (load_tasks_Document _ _ _ Hfile). unfold subscript. by rewrite Hnone.
  - destruct (comprehension_lacks_field good bad rest Hgood Hbad) as [key Hkey].
    exists (KeyError key). split; [done|].
    rewrite (load_tasks_Document _ _ _ Hfile). unfold subscript. rewrite Hsome.
    simpl. by rewrite Hkey.
Qed.

(** X12. The files on which load_tasks raises TypeError. When the file is
    JSON but no object, or an object whose "tasks" is neither an array nor
    an empty dict or string, or an object whose "tasks" is an array in which
    an entry that is no object comes after nothing but entries with all five
    keys, then load_tasks raises TypeError, leaves the manager and the world
    as they were and prints nothing, and the constructor raises it too. *)
Theorem load_tasks_TypeError (me : TaskManager.t) (w : World) (content : file_content) :
  files w !! filename me = Some content →
  ill_shaped content →
  load_tasks (mkSt me w) = (Raise TypeError, mkSt me w) ∧
  init (filename me) w = (Raise TypeError, w).
Proof.
  intros Hfile Hill.
  assert (∃ data, content = Document data) as [data ->] by (inversion Hill; eauto).
  pose proof (load_body_ill_shaped data Hill) as Hbody.
  split.
  - rewrite (load_tasks_Document _ _ _ Hfile). by rewrite Hbody.
  - unfold init.
    rewrite (load_tasks_Document (TaskManager.mk (filename me) [] 1) w data Hfile).
    by rewrite Hbody.
Qed.

Lemma load_tasks_TypeError_witness :
  let me := TaskManager.mk "tasks.json" [Task.init "old" "" 7 "t0"] 8 in
  let first := Task.to_dict (Task.init "Call Ann" "" 1 "t1") in
  let content := Document (JObj {[ "tasks" := JArr [first; JInt 5]; "next_id" := JInt 3 ]}) in
  let w := mkWorld {[ "tasks.json" := content ]} [] [] in
  load_tasks (mkSt me w) = (Raise TypeError, mkSt me w) ∧
  init (filename me) w = (Raise TypeError, w).
Proof.
  intros me first content w.
  apply (load_tasks_TypeError me w content).
  - reflexivity.
  - apply (ill_shaped_entry _ [first] (JInt 5) []).
    + reflexivity.
    + constructor; [|constructor].
      intros key Hkey. unfold required_keys in Hkey.
      repeat (apply elem_of_cons in Hkey as [->|Hkey]; [by eexists|]).
      by apply elem_of_nil in Hkey.
    + exact I.
Defined.

Lemma entry_cases v :
  has_fields v ∨ lacks_field v ∨ match v with JObj _ => False | _ => True end.
Proof.
  destruct v as [| | | | | |members]; try (right; right; exact I).
  destruct (members !! "title") eqn:E1;
    [|right; left; exists "title"; split; [set_solver|done]].
  destruct (members !! "description") eqn:E2;
    [|right; left; exists "description"; split; [set_solver|done]].
  destruct (members !! "id") eqn:E3;
    [|right; left; exists "id"; split; [set_solver|done]].
  destruct (members !! "status") eqn:E4;
    [|right; left; exists "status"; split; [set_solver|done]].
  destruct (members !! "created_at") eqn:E5;
    [|right; left; exists "created_at"; split; [set_solver|done]].
  left. intros key Hkey. unfold required_keys in Hkey.
  repeat (apply elem_of_cons in Hkey as [->|Hkey]; [by eexists|]).
  by apply elem_of_nil in Hkey.
Qed.

Lemma entries_cases entries :
  Forall has_fields entries ∨
  ∃ good bad rest,
    entries = good ++ bad :: rest ∧ Forall has_fields good ∧
    (lacks_field bad ∨ match bad with JObj _ => False | _ => True end).
Proof.
  induction entries as [|v entries IH]; [left; constructor|].
  destruct (entry_cases v) as [Hv|Hv].
  - destruct IH as [Hall|(good & bad & rest & -> & Hgood & Hbad)].
    + left. by constructor.
    + right. exists (v :: good), bad, rest. split_and!; [done | by constructor | done].
  - right. exists [], v, entries. split_and!; [done | constructor | done].
Qed.

(** A JSON document is of one of three shapes. *)
Lemma document_cases (data : json) :
  unloadable (Document data) ∨ ill_shaped (Document data) ∨ readable (Document data).
Proof.
  destruct data as [| | | | | |members];
    try (right; left; by apply ill_shaped_top).
  destruct (members !! "tasks") as [v|] eqn:Htasks; [|left; by constructor].
  destruct v as [| | | |s|entries|inner].
  1-4: right; left; by eapply ill_shaped_tasks.
  - destruct s as [|c s].
    + right; right. by exists members, (JStr ""), [].
    + right; left. by eapply ill_shaped_tasks.
  - destruct (entries_cases entries) as [Hall|(good & bad & rest & -> & Hgood & [Hbad|Hbad])].
    + right; right. by exists members, (JArr entries), entries.
    + left. by eapply unloadable_task.
    + right; left. by eapply ill_shaped_entry.
  - destruct (decide (inner = ∅)) as [->|Hne].
    + right; right. exists members, (JObj ∅), []. split_and!; try done.
    + right; left. by eapply ill_shaped_tasks.
Qed.

Lemma comprehension_has_fields entries :
  Forall has_fields entries →
  ∃ loaded, comprehension Task.from_dict entries = Ok loaded ∧
            length loaded = length entries.
Proof.
  induction 1 as [|v entries Hv _ (loaded & IH & Hlen)]; simpl; [by exists []|].
  destruct (from_dict_has_fields v Hv) as [r ->]. simpl. rewrite IH. simpl.
  exists (r :: loaded). by rewrite <- Hlen.
Qed.

(** X14. On a file it can read load_tasks raises nothing and prints
    nothing, and when it returns the store has one task for each entry of
    "tasks". *)
Theorem load_tasks_readable (me : TaskManager.t) (w : World) (content : file_content) :
  files w !! filename me = Some content →
  readable content →
  let r := fst (load_tasks (mkSt me w)) in
  let st' := snd (load_tasks (mkSt me w)) in
  (∀ e, r ≠ Raise e) ∧
  world st' = w ∧
  (r = Return () →
   ∃ members v entries,
     content = Document (JObj members) ∧ members !! "tasks" = Some v ∧
     iterate v = Ok entries ∧ length (tasks (self st')) = length entries).
Proof.
  intros Hfile (members & v & entries & -> & Htasks & Hiter & Hall).
  rewrite (load_tasks_Document _ _ _ Hfile). unfold subscript. rewrite Htasks. simpl.
  rewrite Hiter. simpl.
  destruct (comprehension_has_fields entries Hall) as (loaded & -> & Hlen).
  destruct (mapM id loaded) as [ts|] eqn:Hts; [|done].
  destruct (next_id_of (JObj members)) as [n|]; [|done].
  simpl. split_and!; [done | done |]. intros _.
  exists members, v, entries. split_and!; try done.
  apply length_mapM in Hts. congruence.
Qed.

Lemma load_tasks_readable_witness :
  let me := TaskManager.mk "tasks.json" [] 1 in
  let first := Task.to_dict (Task.init "Call Ann" "" 1 "t1") in
  let content := Document (JObj {[ "tasks" := JArr [first] ]}) in
  let w := mkWorld {[ "tasks.json" := content ]} [] [] in
  let r := fst (load_tasks (mkSt me w)) in
  let st' := snd (load_tasks (mkSt me w)) in
  (∀ e, r ≠ Raise e) ∧
  world st' = w ∧
  (r = Return () →
   ∃ members v entries,
     content = Document (JObj members) ∧ members !! "tasks" = Some v ∧
     iterate v = Ok entries ∧ length (tasks (self st')) = length entries).
Proof.
  intros me first content w.
  apply (load_tasks_readable me w content).
  - reflexivity.
  - exists {[ "tasks" := JArr [first] ]}, (JArr [first]), [first].
    split_and!; try reflexivity.
    constructor; [|constructor].
    intros key Hkey. unfold required_keys in Hkey.
    repeat (apply elem_of_cons in Hkey as [->|Hkey]; [by eexists|]).
    by apply elem_of_nil in Hkey.
Defined.

Lemma readable_loads me w data :
  files w !! filename me = Some (Document data) →
  readable (Document data) →
  (∀ e, fst (load_tasks (mkSt me w)) ≠ Raise e) ∧
  world (snd (load_tasks (mkSt me w))) = w.
Proof.
  intros Hfile (members & v & entries & [= ->] & Htasks & Hiter & Hall).
  rewrite (load_tasks_Document _ _ _ Hfile). unfold subscript. rewrite Htasks. simpl.
  rewrite Hiter. simpl.
  destruct (comprehension_has_fields entries Hall) as (loaded & -> & _).
  destruct (mapM id loaded) as [ts|]; [|done].
  by destruct (next_id_of (JObj members)) as [n|].
Qed.

Lemma recovered_world_differs me w e : world (recovered me w e) ≠ w.
Proof.
  unfold recovered. simpl. intros Heq. apply (f_equal stdout) in Heq. simpl in Heq.
  apply (f_equal length) in Heq. rewrite length_app in Heq. simpl in Heq. lia.
Qed.

(** X13. What load_tasks does with a file that holds a JSON document is
    decided by the shape of the document, and by nothing else. It raises
    TypeError exactly on the ill-shaped documents (not an object, "tasks"
    no list, an entry that is no object met first). It prints the error and
    returns with the empty store exactly on the documents with a key
    missing (no "tasks", or an entry without one of the five keys met
    first). It raises nothing and leaves the world as it was exactly on the
    documents whose "tasks" has only entries with the five keys. *)
Theorem load_tasks_by_shape (me : TaskManager.t) (w : World) (data : json) :
  files w !! filename me = Some (Document data) →
  let r := fst (load_tasks (mkSt me w)) in
  let st' := snd (load_tasks (mkSt me w)) in
  (r = Raise TypeError ↔ ill_shaped (Document data)) ∧
  ((∃ e, load_caught e = true ∧ load_tasks (mkSt me w) = (Return (), recovered me w e))
     ↔ unloadable (Document data)) ∧
  ((∀ e, r ≠ Raise e) ∧ world st' = w ↔ readable (Document data)).
Proof.
  intros Hfile r st'.
  assert (Hill : ill_shaped (Document data) → load_tasks (mkSt me w) = (Raise TypeError, mkSt me w)).
  { intros Hill. rewrite (load_tasks_Document _ _ _ Hfile).
    by rewrite (load_body_ill_shaped data Hill). }
  pose proof (unloadable_recovers me w (Document data) Hfile) as Hunl.
  pose proof (readable_loads me w data Hfile) as Hread.
  subst r st'. split_and!; (split; [|]).
  - intros Hr. destruct (document_cases data) as [Hu|[Hi|Hre]]; [|done|].
    + destruct (Hunl Hu) as (e & _ & Hload). rewrite Hload in Hr. discriminate.
    + destruct (Hread Hre) as [Hno _]. by destruct (Hno TypeError).
  - intros Hi. by rewrite (Hill Hi).
  - intros (e & Hcaught & Hload).
    destruct (document_cases data) as [Hu|[Hi|Hre]]; [done| |].
    + rewrite (Hill Hi) in Hload. discriminate.
    + destruct (Hread Hre) as [_ Hw]. rewrite Hload in Hw.
      by destruct (recovered_world_differs me w e).
  - done.
  - intros [Hno Hw]. destruct (document_cases data) as [Hu|[Hi|Hre]]; [| |done].
    + destruct (Hunl Hu) as (e & _ & Hload). rewrite Hload in Hw.
      by destruct (recovered_world_differs me w e).
    + rewrite (Hill Hi) in Hno. by destruct (Hno TypeError).
  - done.
Qed.

Lemma load_tasks_by_shape_witness :
  let me := TaskManager.mk "tasks.json" [] 1 in
  let data := JObj {[ "tasks" := JArr [JNull] ]} in
  let w := mkWorld {[ "tasks.json" := Document data ]} [] [] in
  let r := fst (load_tasks (mkSt me w)) in
  let st' := snd (load_tasks (mkSt me w)) in
  (r = Raise TypeError ↔ ill_shaped (Document data)) ∧
  ((∃ e, load_caught e = true ∧ load_tasks (mkSt me w) = (Return (), recovered me w e))
     ↔ unloadable (Document data)) ∧
  ((∀ e, r ≠ Raise e) ∧ world st' = w ↔ readable (Document data)).
Proof.
  intros me data w. apply (load_tasks_by_shape me w data). reflexivity.
Defined.

(** ** Task.__str__ *)

Lemma pretty_N_char_colon_free n : pretty_N_char n ≠ ":"%char.
Proof. unfold pretty_N_char. by repeat case_match. Qed.

Lemma pretty_N_go_colon_free n s : colon_free s → colon_free (pretty_N_go n s).
Proof.
  revert s. induction (N.lt_wf_0 n) as [n _ IH]; intros s Hs.
  destruct (decide (n = 0)%N) as [->|Hne]; [by rewrite pretty_N_go_0|].
  rewrite pretty_N_go_step by lia. apply IH.
  - apply N.div_lt; lia.
  - split; [apply pretty_N_char_colon_free | done].
Qed.

Lemma pretty_Z_colon_free (z : Z) : colon_free (pretty z).
Proof.
  assert (Hpos : ∀ p : positive, colon_free (pretty p)).
  { intros p. unfold pretty, pretty_positive, pretty, pretty_N.
    case_decide; [done|]. by apply pretty_N_go_colon_free. }
  destruct z as [|p|p]; unfold pretty, pretty_Z.
  - done.
  - apply Hpos.
  - split; [done | apply Hpos].
Qed.

(** Two texts that end a colon-free part with a colon are equal part by
    part. *)
Lemma colon_split s1 s2 r1 r2 :
  colon_free s1 → colon_free s2 →
  s1 +:+ String ":"%char r1 = s2 +:+ String ":"%char r2 →
  s1 = s2 ∧ r1 = r2.
Proof.
  revert s2. induction s1 as [|c1 s1 IH]; intros [|c2 s2] H1 H2 Heq; simpl in *.
  - by injection Heq as ->.
  - injection Heq as <- _. by destruct H2.
  - injection Heq as -> _. by destruct H1.
  - injection Heq as -> Heq. destruct H1 as [_ H1], H2 as [_ H2].
    destruct (IH s2 H1 H2 Heq) as [-> ->]. done.
Qed.

(** Two equal lines have the same symbol and the same text after it. *)
Lemma str_same_rest (task1 task2 : Task.t) :
  Task.str task1 = Task.str task2 →
  pretty (Task.id task1) +:+ String ":"%char (" " +:+ Task.title task1)
    = pretty (Task.id task2) +:+ String ":"%char (" " +:+ Task.title task2) ∧
  (Task.status task1 = "completed" ↔ Task.status task2 = "completed").
Proof.
  unfold Task.str. intros Heq.
  destruct (String.eqb_spec (Task.status task1) "completed") as [H1|H1];
    destruct (String.eqb_spec (Task.status task2) "completed") as [H2|H2];
    simpl in Heq; try discriminate; injection Heq as Heq; by split.
Qed.

(** X15. The line of a task tells its id, its title and whether it is
    completed: two tasks with the same line have the same id, the same
    title, and are both completed or both not. *)
Theorem Task_str_tells (task1 task2 : Task.t) :
  Task.str task1 = Task.str task2 →
  Task.id task1 = Task.id task2 ∧
  Task.title task1 = Task.title task2 ∧
  (Task.status task1 = "completed" ↔ Task.status task2 = "completed").
Proof.
  intros [Hrest Hdone]%str_same_rest.
  apply colon_split in Hrest as [Hid Htitle]; try apply pretty_Z_colon_free.
  split_and!; [by apply (inj pretty) | | done].
  simpl in Htitle. by injection Htitle.
Qed.

Lemma Task_str_tells_witness :
  let task := Task.init "Buy milk" "" 12 "t1" in
  Task.id task = 12 ∧ Task.title task = "Buy milk" ∧
  (Task.status task = "completed" ↔ Task.status (Task.init "Buy milk" "x" 12 "t2") = "completed").
Proof.
  intros task.
  apply (Task_str_tells task (Task.init "Buy milk" "x" 12 "t2")).
  reflexivity.
Defined.

Lemma same_id_same_task (ts : list Task.t) (task1 task2 : Task.t) :
  NoDup (Task.id <$> ts) → task1 ∈ ts → task2 ∈ ts →
  Task.id task1 = Task.id task2 → task1 = task2.
Proof.
  intros Hnd H1 H2 Hid.
  destruct (find_task_member ts task1 Hnd H1) as [p1 Hf1].
  destruct (find_task_member ts task2 Hnd H2) as [p2 Hf2].
  rewrite Hid in Hf1. congruence.
Qed.

(** X16. In a store reached from the empty store no two tasks of the list
    have the same line, so the lines of the list command tell the tasks
    apart. *)
Theorem reachable_lines_distinct (me : TaskManager.t) :
  reachable me → NoDup (Task.str <$> tasks me).
Proof.
  intros [Hs _]%reachable_ids_in_order. apply StronglySorted_lt_NoDup in Hs.
  apply NoDup_fmap_2_strong; [|by eapply NoDup_fmap_1].
  intros task1 task2 H1 H2 [Hrest _]%str_same_rest.
  apply colon_split in Hrest as [Hid _]; try apply pretty_Z_colon_free.
  apply (inj pretty) in Hid. by eapply same_id_same_task.
Qed.

Lemma reachable_lines_distinct_witness :
  let ops := [AddTask "same" "" "t1"; AddTask "same" "" "t1"; CompleteTask 1 "t2"] in
  NoDup (Task.str <$> tasks (self (snd (run ops (mkSt (empty_store "tasks.json") quiet))))).
Proof.
  intros ops. apply reachable_lines_distinct.
  apply (reachable_run ops "tasks.json" quiet).
Defined.

(** ** main() *)

Lemma init_stored file w me : stored file w me → init file w = (Return me, w).
Proof.
  intros [<- [Hfile|[Hfile ->]]].
  - rewrite (init_saved _ me w Hfile). by destruct me.
  - by apply init_absent.
Qed.

Lemma stored_saved me w : stored (filename me) (saved me w) me.
Proof. split; [done|]. left. unfold saved; simpl. apply lookup_insert_eq. Qed.

Lemma stored_printed file w me lines : stored file w me → stored file (printed w lines) me.
Proof. done. Qed.

Lemma printed_app w lines1 lines2 :
  printed (printed w lines1) lines2 = printed w (lines1 ++ lines2).
Proof. unfold printed; simpl. by rewrite app_assoc. Qed.

Lemma print_printed line me w :
  print line (mkSt me w) = (Return (), mkSt me (printed w [line])).
Proof. reflexivity. Qed.

Lemma print_tasks_lines ts me w :
  print_tasks ts (mkSt me w)
  = (Return (), mkSt me (printed w (concat (task_lines <$> ts)))).
Proof.
  revert w. induction ts as [|task ts IH]; intros w.
  - simpl. unfold mret, M_ret, ret, printed. rewrite app_nil_r. by destruct w.
  - cbn [print_tasks]. unfold mbind, M_bind, bind. rewrite print_printed.
    rewrite fmap_cons. cbn [concat]. unfold task_lines at 1.
    destruct (String.eqb (Task.description task) "").
    + unfold mret, M_ret, ret. rewrite IH. by rewrite printed_app.
    + rewrite print_printed, IH. by rewrite !printed_app.
Qed.

(** X17. The add command. When the file holds the store (or there is no
    file yet) and the write succeeds, one run of the program with add
    returns, leaves in the file the store with the new task at the end,
    its id the old next_id, and next_id one higher, and prints the one line
    "Task added: [○] <id>: <title>". *)
Theorem main_add (rate_text : Z → Z → string) (help_text : string)
    (me : TaskManager.t) (w : World) (title description now : string) :
  stored "tasks.json" w me →
  next_write_ok w →
  let task := Task.init title description (next_id me) now in
  let me' := TaskManager.mk "tasks.json" (tasks me ++ [task]) (next_id me + 1) in
  let w' := printed (saved me' w)
              ["Task added: [○] " +:+ pretty (next_id me) +:+ ": " +:+ title] in
  main rate_text help_text (ArgsAdd title description) now w = (Return (), w') ∧
  stored "tasks.json" w' me'.
Proof.
  intros Hst Hok task me' w'. split.
  - unfold main. rewrite (init_stored _ _ _ Hst). destruct Hst as [Hname _].
    unfold command, mbind, M_bind, bind.
    rewrite add_task_returns by done. rewrite Hname. reflexivity.
  - apply stored_printed. apply (stored_saved me').
Qed.

Lemma main_add_witness :
  let task := Task.init "Buy milk" "" 1 "t1" in
  let me' := TaskManager.mk "tasks.json" [task] 2 in
  let w' := printed (saved me' quiet) ["Task added: [○] 1: Buy milk"] in
  main (λ _ _, "0.0") "usage" (ArgsAdd "Buy milk" "") "t1" quiet = (Return (), w') ∧
  stored "tasks.json" w' me'.
Proof.
  intros task me' w'.
  apply (main_add (λ _ _, "0.0") "usage" (empty_store "tasks.json") quiet "Buy milk" "" "t1").
  - split; [done|]. by right.
  - discriminate.
Defined.

(** X18. The complete command, on a world whose file holds the store.
    When the store has a task with the id that is not completed (and the
    write succeeds), the run leaves in the file the store with the first such
    task completed and stamped, and prints "Task <id> marked as
    completed!". When the store has no task with the id, or the first one is
    completed already, the run writes nothing and prints "Task <id> not
    found or already completed.". *)
Theorem main_complete (rate_text : Z → Z → string) (help_text : string)
    (me : TaskManager.t) (w : World) (task_id : Z) (now : string) :
  stored "tasks.json" w me →
  (∀ place task,
     find_task (tasks me) task_id = Some (place, task) →
     Task.status task ≠ "completed" →
     next_write_ok w →
     let me' := TaskManager.mk "tasks.json"
                  (<[place := Task.complete now task]> (tasks me)) (next_id me) in
     let w' := printed (saved me' w)
                 ["Task " +:+ pretty task_id +:+ " marked as completed!"] in
     main rate_text help_text (ArgsComplete task_id) now w = (Return (), w') ∧
     stored "tasks.json" w' me') ∧
  (match find_task (tasks me) task_id with
   | Some (_, task) => Task.status task = "completed"
   | None => True
   end →
   main rate_text help_text (ArgsComplete task_id) now w
   = (Return (),
      printed w ["Task " +:+ pretty task_id +:+ " not found or already completed."])).
Proof.
  intros Hst. split.
  - intros place task Hf Hstatus Hok me' w'. split.
    + unfold main. rewrite (init_stored _ _ _ Hst). destruct Hst as [Hname _].
      unfold command, mbind, M_bind, bind.
      rewrite (complete_task_returns me w task_id now place task) by done.
      rewrite Hname. reflexivity.
    + apply stored_printed. apply (stored_saved me').
  - intros Hf. unfold main. rewrite (init_stored _ _ _ Hst).
    unfold command, mbind, M_bind, bind.
    by rewrite complete_task_refuses.
Qed.

Lemma main_complete_witness :
  let a := Task.init "a" "" 1 "t1" in
  let me := TaskManager.mk "tasks.json" [a] 2 in
  let w := saved me quiet in
  let me' := TaskManager.mk "tasks.json" [Task.complete "t2" a] 2 in
  main (λ _ _, "0.0") "usage" (ArgsComplete 1) "t2" w
    = (Return (), printed (saved me' w) ["Task 1 marked as completed!"]) ∧
  main (λ _ _, "0.0") "usage" (ArgsComplete 5) "t2" w
    = (Return (), printed w ["Task 5 not found or already completed."]).
Proof.
  intros a me w me'.
  assert (Hst : stored "tasks.json" w me) by apply (stored_saved me).
  destruct (main_complete (λ _ _, "0.0") "usage" me w 1 "t2" Hst) as [Hdo _].
  destruct (main_complete (λ _ _, "0.0") "usage" me w 5 "t2" Hst) as [_ Hdont].
  split.
  - apply (Hdo O a); [reflexivity | discriminate | discriminate].
  - apply Hdont. exact I.
Defined.

(** X19. The delete command, on a world whose file holds the store. When
    the store has a task with the id (and the write succeeds), the run
    leaves in the file the store without the first such task and prints
    "Task <id> deleted."; when it has none, the run writes nothing and
    prints "Task <id> not found.". *)
Theorem main_delete (rate_text : Z → Z → string) (help_text : string)
    (me : TaskManager.t) (w : World) (task_id : Z) (now : string) :
  stored "tasks.json" w me →
  (∀ place task,
     find_task (tasks me) task_id = Some (place, task) →
     next_write_ok w →
     let me' := TaskManager.mk "tasks.json" (delete place (tasks me)) (next_id me) in
     let w' := printed (saved me' w) ["Task " +:+ pretty task_id +:+ " deleted."] in
     main rate_text help_text (ArgsDelete task_id) now w = (Return (), w') ∧
     stored "tasks.json" w' me') ∧
  (find_task (tasks me) task_id = None →
   main rate_text help_text (ArgsDelete task_id) now w
   = (Return (), printed w ["Task " +:+ pretty task_id +:+ " not found."])).
Proof.
  intros Hst. split.
  - intros place task Hf Hok me' w'. split.
    + unfold main. rewrite (init_stored _ _ _ Hst). destruct Hst as [Hname _].
      unfold command, mbind, M_bind, bind.
      rewrite (delete_task_returns me w task_id place task) by done.
      rewrite Hname. reflexivity.
    + apply stored_printed. apply (stored_saved me').
  - intros Hf. unfold main. rewrite (init_stored _ _ _ Hst).
    unfold command, mbind, M_bind, bind.
    by rewrite delete_task_refuses.
Qed.

Lemma main_delete_witness :
  let a := Task.init "a" "" 1 "t1" in
  let b := Task.init "b" "" 2 "t2" in
  let me := TaskManager.mk "tasks.json" [a; b] 3 in
  let w := saved me quiet in
  let me' := TaskManager.mk "tasks.json" [b] 3 in
  main (λ _ _, "0.0") "usage" (ArgsDelete 1) "" w
    = (Return (), printed (saved me' w) ["Task 1 deleted."]) ∧
  main (λ _ _, "0.0") "usage" (ArgsDelete 5) "" w
    = (Return (), printed w ["Task 5 not found."]).
Proof.
  intros a b me w me'.
  assert (Hst : stored "tasks.json" w me) by apply (stored_saved me).
  destruct (main_delete (λ _ _, "0.0") "usage" me w 1 "" Hst) as [Hdo _].
  destruct (main_delete (λ _ _, "0.0") "usage" me w 5 "" Hst) as [_ Hdont].
  split.
  - apply (Hdo O a); [reflexivity | discriminate].
  - apply Hdont. reflexivity.
Defined.

(** X20. The list command, on a world whose file holds the store, writes
    nothing and prints, for the tasks list_tasks returns: "No tasks found."
    when there is none; otherwise a heading, a rule of fifty dashes, for
    each task in order its line and, when its description is not empty, a
    line with the description, and the rule again. *)
Theorem main_list (rate_text : Z → Z → string) (help_text : string)
    (me : TaskManager.t) (w : World) (status : option string) (now : string) :
  stored "tasks.json" w me →
  ∃ listed,
    list_tasks status (mkSt me w) = (Return listed, mkSt me w) ∧
    main rate_text help_text (ArgsList status) now w
    = (Return (), printed w (list_lines listed)) ∧
    (listed = [] ↔ list_lines listed = ["No tasks found."]) ∧
    length (list_lines listed)
    = match listed with
      | [] => 1%nat
      | _ => (3 + length listed
                + length (filter (λ task, Task.description task ≠ "") listed))%nat
      end.
Proof.
  intros Hst.
  assert (∃ listed, list_tasks status (mkSt me w) = (Return listed, mkSt me w))
    as [listed Hlist].
  { unfold list_tasks, mbind, M_bind, bind, get_self, mret, M_ret, ret.
    destruct status as [wanted|]; [|eauto]. destruct (String.eqb wanted ""); eauto. }
  exists listed. split_and!; [done| | |].
  - unfold main. rewrite (init_stored _ _ _ Hst).
    unfold command, mbind, M_bind, bind. rewrite Hlist.
    destruct listed as [|task rest]; [done|].
    rewrite !print_printed, print_tasks_lines, print_printed.
    unfold list_lines. by rewrite !printed_app.
  - destruct listed as [|task rest]; [done|]. split; [done|]. discriminate.
  - destruct listed as [|task rest]; [done|]. unfold list_lines.
    rewrite !length_app. simpl length at 1 3.
    assert (Hlen : ∀ ts, length (concat (task_lines <$> ts))
                         = (length ts + length (filter (λ t, Task.description t ≠ "") ts))%nat).
    { induction ts as [|t ts IH]; [done|].
      rewrite fmap_cons. cbn [concat]. rewrite length_app, IH. unfold task_lines.
      rewrite filter_cons.
      destruct (String.eqb_spec (Task.description t) "") as [Heq|Hne].
      - rewrite decide_False by (intros H; by apply H). simpl. lia.
      - rewrite decide_True by done. simpl. lia. }
    rewrite Hlen. lia.
Qed.

Lemma main_list_witness :
  let a := Task.init "a" "first" 1 "t1" in
  let b := Task.complete "t3" (Task.init "b" "" 2 "t2") in
  let me := TaskManager.mk "tasks.json" [a; b] 3 in
  let w := saved me quiet in
  ∃ listed,
    list_tasks (Some "pending") (mkSt me w) = (Return listed, mkSt me w) ∧
    main (λ _ _, "0.0") "usage" (ArgsList (Some "pending")) "" w
    = (Return (), printed w (list_lines listed)) ∧
    (listed = [] ↔ list_lines listed = ["No tasks found."]) ∧
    length (list_lines listed)
    = match listed with
      | [] => 1%nat
      | _ => (3 + length listed
                + length (filter (λ task, Task.description task ≠ "") listed))%nat
      end.
Proof.
  intros a b me w.
  apply (main_list (λ _ _, "0.0") "usage" me w (Some "pending") "").
  apply (stored_saved me).
Defined.

Section StatsDict.

Context (total completed pending : Z).

Let stats : gmap string Z :=
  {[ "total" := total; "completed" := completed; "pending" := pending ]}.

Lemma stats_total : stats !! "total" = Some total.
Proof. reflexivity. Qed.

Lemma stats_completed : stats !! "completed" = Some completed.
Proof. reflexivity. Qed.

Lemma stats_pending : stats !! "pending" = Some pending.
Proof. reflexivity. Qed.

End StatsDict.

(** X21. The stats command, on a world whose file holds the store, writes
    nothing and prints a heading and the three counts, total, completed and
    pending (their difference), and after them, when the store is not empty,
    the line of the completion rate; on an empty store no rate is
    computed. *)
Theorem main_stats (rate_text : Z → Z → string) (help_text : string)
    (me : TaskManager.t) (w : World) (now : string) :
  stored "tasks.json" w me →
  let total := Z.of_nat (length (tasks me)) in
  let completed :=
    Z.of_nat (length (filter (λ task, Task.status task = "completed") (tasks me))) in
  main rate_text help_text ArgsStats now w
  = (Return (),
     printed w ([String "010"%char "Task Statistics:";
                 "Total tasks: " +:+ pretty total;
                 "Completed: " +:+ pretty completed;
                 "Pending: " +:+ pretty (total - completed)]
                ++ match tasks me with
                   | [] => []
                   | _ => ["Completion rate: " +:+ rate_text completed total +:+ "%"]
                   end)).
Proof.
  intros Hst total completed. unfold main. rewrite (init_stored _ _ _ Hst).
  unfold command, get_statistics, mbind, M_bind, bind, get_self, stat.
  cbn [ret mret M_ret fst snd self world]. rewrite print_printed.
  rewrite stats_total, stats_completed, stats_pending.
  cbn [ret mret M_ret]. rewrite !print_printed, !printed_app.
  subst total completed. destruct (tasks me) as [|task rest]; [done|].
  change (0 <? Z.of_nat (length (task :: rest))) with true.
  cbv iota. by rewrite print_printed, printed_app.
Qed.

Lemma main_stats_witness :
  let a := Task.init "a" "" 1 "t1" in
  let b := Task.complete "t3" (Task.init "b" "" 2 "t2") in
  let me := TaskManager.mk "tasks.json" [a; b] 3 in
  let w := saved me quiet in
  main (λ _ _, "50.0") "usage" ArgsStats "" w
  = (Return (),
     printed w [String "010"%char "Task Statistics:"; "Total tasks: 2"; "Completed: 1";
                "Pending: 1"; "Completion rate: 50.0%"]).
Proof.
  intros a b me w.
  apply (main_stats (λ _ _, "50.0") "usage" me w "").
  apply (stored_saved me).
Defined.

(** ** The program run again and again *)

Lemma exec_self_world o me w1 w2 :
  self (snd (exec o (mkSt me w1))) = self (snd (exec o (mkSt me w2))).
Proof.
  rewrite !exec_self. destruct o.
  - by rewrite !add_task_self.
  - by rewrite !complete_task_self.
  - by rewrite !delete_task_self.
Qed.

Lemma run_self_world ops me w1 w2 :
  self (snd (run ops (mkSt me w1))) = self (snd (run ops (mkSt me w2))).
Proof.
  revert me w1 w2. induction ops as [|o ops IH]; intros me w1 w2; [done|]. simpl.
  pose proof (exec_self_world o me w1 w2) as Hself.
  destruct (exec o (mkSt me w1)) as [r1 [me1 w1']].
  destruct (exec o (mkSt me w2)) as [r2 [me2 w2']]. simpl in Hself. subst me2.
  specialize (IH me1 w1' w2').
  destruct (run ops (mkSt me1 w1')) as [rs1 st1].
  by destruct (run ops (mkSt me1 w2')) as [rs2 st2].
Qed.

Lemma no_faults_write_ok w : faults w = [] → next_write_ok w.
Proof. unfold next_write_ok. by intros ->. Qed.

(** One call on a manager whose store the file holds, when no write
    fails: the file holds the store the call leaves. *)
Lemma exec_stored o me w :
  stored (filename me) w me → faults w = [] →
  stored (filename me) (world (snd (exec o (mkSt me w)))) (self (snd (exec o (mkSt me w)))) ∧
  faults (world (snd (exec o (mkSt me w)))) = [] ∧
  ∃ v, fst (exec o (mkSt me w)) = Return v.
Proof.
  intros Hst Hnf. pose proof (no_faults_write_ok w Hnf) as Hok.
  destruct o as [ti de now|task_id now|task_id];
    unfold exec, mbind, M_bind, bind, mret, M_ret, ret.
  - rewrite add_task_returns by done. simpl.
    split_and!; [apply (stored_saved (TaskManager.mk _ _ _)) | unfold saved; simpl; by rewrite Hnf | eauto].
  - destruct (find_task (tasks me) task_id) as [[place task]|] eqn:Hf.
    + destruct (String.eqb_spec (Task.status task) "completed") as [Hdone|Hnot].
      * rewrite (complete_task_refuses me w task_id now) by (by rewrite Hf). simpl. eauto.
      * rewrite (complete_task_returns me w task_id now place task) by done. simpl.
        split_and!; [apply (stored_saved (TaskManager.mk _ _ _))
                    | unfold saved; simpl; by rewrite Hnf | eauto].
    + rewrite (complete_task_refuses me w task_id now) by (by rewrite Hf). simpl. eauto.
  - destruct (find_task (tasks me) task_id) as [[place task]|] eqn:Hf.
    + rewrite (delete_task_returns me w task_id place task) by done. simpl.
      split_and!; [apply (stored_saved (TaskManager.mk _ _ _))
                  | unfold saved; simpl; by rewrite Hnf | eauto].
    + rewrite delete_task_refuses by done. simpl. eauto.
Qed.

Lemma exec_filename o me w : filename (self (snd (exec o (mkSt me w)))) = filename me.
Proof.
  rewrite exec_self. destruct o.
  - by rewrite add_task_self.
  - rewrite complete_task_self.
    destruct (find_task _ _) as [[place task]|]; [|done]. by destruct (negb _).
  - rewrite delete_task_self. by destruct (find_task _ _) as [[place task]|].
Qed.

(** The world a command leaves is the world its call of the manager
    leaves, with lines printed after it. *)
Lemma command_world rate_text help_text a now me w :
  faults w = [] → stored (filename me) w me →
  ∃ lines,
    world (snd (command rate_text help_text a now (mkSt me w)))
    = printed match op_of_args a now with
              | Some o => world (snd (exec o (mkSt me w)))
              | None => w
              end lines.
Proof.
  intros Hnf Hst.
  destruct a as [ti de|status|task_id|task_id| |]; simpl op_of_args.
  - destruct (exec_stored (AddTask ti de now) me w Hst Hnf) as (_ & _ & v & Hv).
    revert Hv. unfold exec, command, mbind, M_bind, bind, mret, M_ret, ret.
    destruct (add_task ti de now (mkSt me w)) as [[task| |] [me' w']]; try done.
    intros _. rewrite print_printed. eauto.
  - unfold command, mbind, M_bind, bind.
    assert (∃ listed, list_tasks status (mkSt me w) = (Return listed, mkSt me w))
      as [listed ->].
    { unfold list_tasks, mbind, M_bind, bind, get_self, mret, M_ret, ret.
      destruct status as [wanted|]; [|eauto]. destruct (String.eqb wanted ""); eauto. }
    destruct listed as [|task rest]; [rewrite print_printed; eauto|].
    rewrite !print_printed, print_tasks_lines, print_printed, !printed_app. eauto.
  - destruct (exec_stored (CompleteTask task_id now) me w Hst Hnf) as (_ & _ & v & Hv).
    revert Hv. unfold exec, command, mbind, M_bind, bind, mret, M_ret, ret.
    destruct (complete_task task_id now (mkSt me w)) as [[[|]| |] [me' w']]; try done;
      intros _; rewrite print_printed; eauto.
  - destruct (exec_stored (DeleteTask task_id) me w Hst Hnf) as (_ & _ & v & Hv).
    revert Hv. unfold exec, command, mbind, M_bind, bind, mret, M_ret, ret.
    destruct (delete_task task_id (mkSt me w)) as [[[|]| |] [me' w']]; try done;
      intros _; rewrite print_printed; eauto.
  - unfold command, get_statistics, mbind, M_bind, bind, get_self, stat.
    cbn [ret mret M_ret fst snd self world]. rewrite print_printed.
    rewrite stats_total, stats_completed, stats_pending.
    cbn [ret mret M_ret]. rewrite !print_printed, !printed_app.
    destruct (0 <? _); [rewrite print_printed, printed_app|]; eauto.
  - unfold command. rewrite print_printed. eauto.
Qed.

Lemma main_step rate_text help_text a now me w :
  stored "tasks.json" w me → faults w = [] →
  let me' := match op_of_args a now with
             | Some o => self (snd (exec o (mkSt me w)))
             | None => me
             end in
  stored "tasks.json" (snd (main rate_text help_text a now w)) me' ∧
  faults (snd (main rate_text help_text a now w)) = [].
Proof.
  intros Hst Hnf me'. unfold main. rewrite (init_stored _ _ _ Hst).
  assert (Hname : filename me = "tasks.json") by apply Hst.
  rewrite <- Hname in Hst.
  destruct (command_world rate_text help_text a now me w Hnf Hst) as [lines Hw].
  destruct (command rate_text help_text a now (mkSt me w)) as [r st] eqn:Hc.
  simpl in *. rewrite Hw. subst me'.
  destruct (op_of_args a now) as [o|].
  - destruct (exec_stored o me w Hst Hnf) as (Hst' & Hnf' & _).
    rewrite <- Hname. split; [by apply stored_printed | done].
  - rewrite <- Hname. split; [by apply stored_printed | done].
Qed.

Lemma main_runs_stored rate_text help_text cmds me w w0 :
  stored "tasks.json" w me → faults w = [] →
  stored "tasks.json" (main_runs rate_text help_text cmds w)
         (self (snd (run (ops_of cmds) (mkSt me w0)))).
Proof.
  revert me w w0. induction cmds as [|[a now] cmds IH]; intros me w w0 Hst Hnf; [done|].
  destruct (main_step rate_text help_text a now me w Hst Hnf) as [Hst' Hnf'].
  cbn [main_runs]. unfold ops_of. cbn [omap list_omap fst snd].
  destruct (op_of_args a now) as [o|].
  - cbn [run]. fold (ops_of cmds).
    specialize (IH _ _ (world (snd (exec o (mkSt me w0)))) Hst' Hnf').
    rewrite (exec_self_world o me w w0) in IH.
    destruct (exec o (mkSt me w0)) as [r [me1 w1]]. simpl in IH.
    by destruct (run (ops_of cmds) (mkSt me1 w1)) as [rs st].
  - by apply IH.
Qed.

(** X22. Running the program once per command is the same for the store as
    making the calls on one manager. Start without a file and let no write
    fail: after any sequence of commands the file holds exactly the store
    that the calls of those commands, made in order on one manager from the
    empty store, leave. So the stores the program keeps in its file are the
    reachable ones, with all their invariants. *)
Theorem main_runs_as_one_manager (rate_text : Z → Z → string) (help_text : string)
    (cmds : list (args * string)) (w : World) :
  files w !! "tasks.json" = None →
  faults w = [] →
  let me := self (snd (run (ops_of cmds) (mkSt (empty_store "tasks.json") w))) in
  stored "tasks.json" (main_runs rate_text help_text cmds w) me ∧
  reachable me.
Proof.
  intros Hfile Hnf me. split.
  - apply main_runs_stored; [|done]. split; [done|]. by right.
  - apply reachable_run.
Qed.

Lemma main_runs_as_one_manager_witness :
  let cmds := [(ArgsAdd "a" "", "t1"); (ArgsList None, ""); (ArgsAdd "b" "", "t2");
               (ArgsDelete 1, ""); (ArgsStats, ""); (ArgsAdd "c" "", "t3")] in
  let me := self (snd (run (ops_of cmds) (mkSt (empty_store "tasks.json") quiet))) in
  stored "tasks.json" (main_runs (λ _ _, "0.0") "usage" cmds quiet) me ∧
  reachable me.
Proof.
  intros cmds me.
  apply (main_runs_as_one_manager (λ _ _, "0.0") "usage" cmds quiet); reflexivity.
Defined.

(** X23. A file of a wrong shape stops every command. When tasks.json is
    one of the files on which load_tasks raises TypeError, a run of the
    program raises TypeError whatever the command, also the one that only
    shows the help, and leaves the world as it was: nothing is printed and
    the file is not repaired. *)
Theorem main_ill_shaped_file (rate_text : Z → Z → string) (help_text : string)
    (a : args) (now : string) (w : World) (content : file_content) :
  files w !! "tasks.json" = Some content →
  ill_shaped content →
  main rate_text help_text a now w = (Raise TypeError, w).
Proof.
  intros Hfile Hill.
  assert (∃ data, content = Document data) as [data ->] by (inversion Hill; eauto).
  unfold main, init.
  rewrite (load_tasks_Document (TaskManager.mk "tasks.json" [] 1) w data Hfile).
  by rewrite (load_body_ill_shaped data Hill).
Qed.

Lemma main_ill_shaped_file_witness :
  let w := mkWorld {[ "tasks.json" := Document (JArr []) ]} [] [] in
  main (λ _ _, "0.0") "usage" ArgsNone "" w = (Raise TypeError, w).
Proof.
  intros w.
  apply (main_ill_shaped_file (λ _ _, "0.0") "usage" ArgsNone "" w (Document (JArr []))).
  - reflexivity.
  - by apply ill_shaped_top.
Defined.

(** X24. After a file it recovers from, the add command overwrites the
    file. When tasks.json is no JSON or lacks a key and the write succeeds,
    a run with add prints the error and then the added task, which gets the
    id 1, and leaves in the file a store with that task alone and next_id 2:
    what the file held before is lost. *)
Theorem main_add_after_recovery (rate_text : Z → Z → string) (help_text : string)
    (w : World) (content : file_content) (title description now : string) :
  files w !! "tasks.json" = Some content →
  unloadable content →
  next_write_ok w →
  let me' := TaskManager.mk "tasks.json" [Task.init title description 1 now] 2 in
  ∃ e, load_caught e = true ∧
       main rate_text help_text (ArgsAdd title description) now w
       = (Return (),
          mkWorld (<["tasks.json" := Document (to_json me')]> (files w))
                  (stdout w ++ ["Error loading tasks: " +:+ exn_str e;
                                "Task added: [○] 1: " +:+ title])
                  (tail (faults w))).
Proof.
  intros Hfile Hbad Hok me'.
  destruct (unloadable_recovers (TaskManager.mk "tasks.json" [] 1) w content Hfile Hbad)
    as (e & Hcaught & Hload).
  exists e. split; [done|].
  unfold main, init. rewrite Hload. unfold recovered. simpl.
  unfold command, mbind, M_bind, bind.
  rewrite add_task_returns by done. simpl.
  unfold saved. simpl. by rewrite <- app_assoc.
Qed.

Lemma main_add_after_recovery_witness :
  let w := mkWorld {[ "tasks.json" := Malformed "Expecting value: line 1 column 1 (char 0)" ]}
                   [] [] in
  let me' := TaskManager.mk "tasks.json" [Task.init "Buy milk" "" 1 "t1"] 2 in
  ∃ e, load_caught e = true ∧
       main (λ _ _, "0.0") "usage" (ArgsAdd "Buy milk" "") "t1" w
       = (Return (),
          mkWorld (<["tasks.json" := Document (to_json me')]> (files w))
                  (stdout w ++ ["Error loading tasks: " +:+ exn_str e;
                                "Task added: [○] 1: " +:+ "Buy milk"])
                  (tail (faults w))).
Proof.
  intros w me'.
  apply (main_add_after_recovery (λ _ _, "0.0") "usage" w
           (Malformed "Expecting value: line 1 column 1 (char 0)") "Buy milk" "" "t1").
  - reflexivity.
  - constructor.
  - discriminate.
Defined.

(** X25. A failed write loses the task, and can lose the store. When the
    file holds the store and the write of an add fails, the run raises
    OSError and prints nothing. When the file could not be opened it still
    holds the old store, so the next run will not see the task. When the
    writing failed after the open had emptied the file, the file is left as
    no JSON: the next run, here a list, prints the load error and "No tasks
    found.", every task lost. *)
Theorem main_add_write_fails (rate_text : Z → Z → string) (help_text : string)
    (me : TaskManager.t) (w : World) (fate : write_fate) (later : list write_fate)
    (title description now : string) :
  stored "tasks.json" w me →
  faults w = fate :: later →
  fails fate = true →
  let w' := mkWorld (left_by fate "tasks.json" (files w)) (stdout w) later in
  main rate_text help_text (ArgsAdd title description) now w = (Raise OSError, w') ∧
  (fate = OpenFails → stored "tasks.json" w' me) ∧
  (∀ msg, fate = DumpFails msg →
     files w' !! "tasks.json" = Some (Malformed msg) ∧
     ∀ now', main rate_text help_text (ArgsList None) now' w'
             = (Return (),
                printed w' ["Error loading tasks: " +:+ msg; "No tasks found."])).
Proof.
  intros Hst Hfault Hfate w'. split_and!.
  - unfold main. rewrite (init_stored _ _ _ Hst). destruct Hst as [Hname _].
    unfold command, add_task, mbind, M_bind, bind, get_self, set_tasks, set_next_id.
    simpl. rewrite (save_tasks_fails _ _ fate later) by done. simpl. by rewrite Hname.
  - intros ->. done.
  - intros msg ->.
    assert (Hfile : files w' !! "tasks.json" = Some (Malformed msg)).
    { simpl. apply lookup_insert_eq. }
    split; [done|]. intros now'. unfold main, init.
    rewrite (load_tasks_Malformed (TaskManager.mk "tasks.json" [] 1) w' msg Hfile).
    unfold recovered, printed. simpl. by rewrite <- app_assoc.
Qed.

Lemma main_add_write_fails_witness :
  let me := TaskManager.mk "tasks.json" [Task.init "a" "" 1 "t1"] 2 in
  let full := DumpFails "Expecting value: line 1 column 1 (char 0)" in
  let w := mkWorld {[ "tasks.json" := Document (to_json me) ]} [] [full] in
  let w' := mkWorld (left_by full "tasks.json" (files w)) (stdout w) [] in
  main (λ _ _, "0.0") "usage" (ArgsAdd "b" "" ) "t2" w = (Raise OSError, w') ∧
  (full = OpenFails → stored "tasks.json" w' me) ∧
  (∀ msg, full = DumpFails msg →
     files w' !! "tasks.json" = Some (Malformed msg) ∧
     ∀ now', main (λ _ _, "0.0") "usage" (ArgsList None) now' w'
             = (Return (),
                printed w' ["Error loading tasks: " +:+ msg; "No tasks found."])).
Proof.
  intros me full w w'.
  apply (main_add_write_fails (λ _ _, "0.0") "usage" me w full [] "b" "" "t2").
  - split; [done|]. by left.
  - reflexivity.
  - reflexivity.
Defined.

(** X26. A file without "next_id". When the file is an object with the
    tasks of a store under "tasks" and no "next_id" key, load_tasks loads
    those tasks and sets next_id to 1, whatever ids the tasks have; the next
    add_task then gives the id 1 again. *)
Theorem load_tasks_without_next_id (me : TaskManager.t) (w : World) (ts : list Task.t)
    (title description now : string) :
  files w !! filename me
    = Some (Document (JObj {[ "tasks" := JArr (Task.to_dict <$> ts) ]})) →
  next_write_ok w →
  let loaded := TaskManager.mk (filename me) ts 1 in
  load_tasks (mkSt me w) = (Return (), mkSt loaded w) ∧
  ∃ st', add_task title description now (mkSt loaded w)
         = (Return (Task.init title description 1 now), st') ∧
         tasks (self st') = ts ++ [Task.init title description 1 now].
Proof.
  intros Hfile Hok loaded. split.
  - rewrite (load_tasks_Document _ _ _ Hfile).
    change (subscript (JObj {[ "tasks" := JArr (Task.to_dict <$> ts) ]}) "tasks")
      with (Ok (JArr (Task.to_dict <$> ts))).
    cbn [res_bind iterate]. rewrite comprehension_to_dict.
    by rewrite (mapM_fmap_Some id Some) by done.
  - eexists. split; [by apply add_task_returns | done].
Qed.

Lemma load_tasks_without_next_id_witness :
  let me := TaskManager.mk "tasks.json" [] 1 in
  let ts := [Task.init "a" "" 1 "t1"; Task.init "b" "" 2 "t2"] in
  let w := mkWorld {[ "tasks.json" := Document (JObj {[ "tasks" := JArr (Task.to_dict <$> ts) ]}) ]}
                   [] [] in
  let loaded := TaskManager.mk "tasks.json" ts 1 in
  load_tasks (mkSt me w) = (Return (), mkSt loaded w) ∧
  ∃ st', add_task "c" "" "t3" (mkSt loaded w)
         = (Return (Task.init "c" "" 1 "t3"), st') ∧
         tasks (self st') = ts ++ [Task.init "c" "" 1 "t3"].
Proof.
  intros me ts w loaded.
  apply (load_tasks_without_next_id me w ts "c" "" "t3").
  - reflexivity.
  - discriminate.
Defined.

Lemma sorted_length_bound (l : list Z) (lo hi : Z) :
  StronglySorted Z.lt l → Forall (λ x, lo ≤ x < hi) l → lo ≤ hi →
  Z.of_nat (length l) ≤ hi - lo.
Proof.
  revert lo. induction l as [|x l IH]; intros lo Hs Hb Hle; [simpl; lia|].
  apply StronglySorted_inv in Hs as [Hs Hx].
  apply Forall_cons in Hb as [Hbx Hb].
  assert (Forall (λ y, x + 1 ≤ y < hi) l) as Hb'.
  { rewrite Forall_forall in *. intros y Hy.
    specialize (Hx y Hy). specialize (Hb y Hy). simpl in *. lia. }
  specialize (IH (x + 1) Hs Hb'). simpl length. lia.
Qed.

Lemma exec_next_id_step o me w :
  next_id (self (snd (exec o (mkSt me w))))
  = next_id me + (if is_add o then 1 else 0).
Proof.
  rewrite exec_self. destruct o as [ti de now|task_id now|task_id]; simpl.
  - by rewrite add_task_self.
  - rewrite complete_task_self.
    destruct (find_task _ _) as [[place task]|]; [|lia].
    destruct (negb _); simpl; lia.
  - rewrite delete_task_self.
    destruct (find_task _ _) as [[place task]|]; simpl; lia.
Qed.

Lemma exec_ids_positive o me w :
  1 ≤ next_id me → Forall (λ task, 1 ≤ Task.id task) (tasks me) →
  Forall (λ task, 1 ≤ Task.id task) (tasks (self (snd (exec o (mkSt me w))))).
Proof.
  intros Hn Hall. rewrite exec_self. destruct o as [ti de now|task_id now|task_id].
  - rewrite add_task_self; simpl. apply Forall_app. split; [done|].
    constructor; [done | constructor].
  - rewrite complete_task_self.
    destruct (find_task (tasks me) task_id) as [[place task]|] eqn:Hf; [|done].
    destruct (negb _); [|done]. simpl. apply Forall_insert; [done|]. simpl.
    apply find_task_lookup in Hf as [Hl _].
    rewrite Forall_forall in Hall. apply Hall. by eapply list_elem_of_lookup_2.
  - rewrite delete_task_self.
    destruct (find_task (tasks me) task_id) as [[place task]|]; [|done].
    simpl. by apply Forall_delete.
Qed.

Lemma run_next_id ops me w :
  1 ≤ next_id me → Forall (λ task, 1 ≤ Task.id task) (tasks me) →
  let me' := self (snd (run ops (mkSt me w))) in
  next_id me' = next_id me + Z.of_nat (length (filter (λ o, is_add o = true) ops)) ∧
  Forall (λ task, 1 ≤ Task.id task) (tasks me').
Proof.
  revert me w. induction ops as [|o ops IH]; intros me w Hn Hall; simpl.
  - split; [lia | done].
  - pose proof (exec_next_id_step o me w) as Hstep.
    pose proof (exec_ids_positive o me w Hn Hall) as Hpos.
    destruct (exec o (mkSt me w)) as [r [me1 w1]]. simpl in Hstep, Hpos.
    destruct (IH me1 w1) as [Hnext Hall']; [destruct (is_add o); lia | done |].
    destruct (run ops (mkSt me1 w1)) as [rs st]. simpl in *.
    split; [|done]. rewrite Hnext, Hstep, filter_cons.
    destruct (decide (is_add o = true)) as [->|Hne%not_true_is_false].
    + simpl length. lia.
    + rewrite Hne. lia.
Qed.

(** X27. next_id counts the additions. After any run of calls on one
    manager from the empty store, whatever writes failed, next_id is one
    more than the number of add_task calls made, every id in the store is
    at least 1 and below next_id, and the store holds at most as many tasks
    as there were additions. *)
Theorem next_id_counts_additions (ops : list op) (file : string) (w : World) :
  let me := self (snd (run ops (mkSt (empty_store file) w))) in
  let additions := Z.of_nat (length (filter (λ o, is_add o = true) ops)) in
  next_id me = 1 + additions ∧
  Forall (λ task, 1 ≤ Task.id task < next_id me) (tasks me) ∧
  Z.of_nat (length (tasks me)) ≤ additions.
Proof.
  intros me additions.
  destruct (run_next_id ops (empty_store file) w) as [Hnext Hpos];
    [done | constructor |].
  destruct (reachable_ids_in_order me (reachable_run ops file w)) as [Hs Hb].
  fold me in Hnext, Hpos. change (next_id (empty_store file)) with 1 in Hnext.
  assert (Hrange : Forall (λ task, 1 ≤ Task.id task < next_id me) (tasks me)).
  { rewrite Forall_forall in *. intros task Hin. split; [by apply Hpos | by apply Hb]. }
  split_and!; [done | done |].
  pose proof (sorted_length_bound (Task.id <$> tasks me) 1 (next_id me) Hs) as Hlen.
  rewrite length_fmap in Hlen. subst additions.
  assert (Z.of_nat (length (tasks me)) ≤ next_id me - 1); [|lia].
  apply Hlen; [|lia]. by apply Forall_fmap.
Qed.
